(** * add_custom_section.py: inserting a custom section into a WASM binary

    A shallow embedding of [sample-plugins/hello-plugin/add_custom_section.py]
    and the properties its specification states about it.

    Python values are modelled as follows:
    - [int] is [Z] (unbounded, [>>] is the arithmetic shift [Z.shiftr],
      [&] and [|] are [Z.land] and [Z.lor] on the infinite two's complement);
    - [bytes] is [list byte];
    - [str] is the list of its Unicode code points, each a [Z] in
      [0 .. 0x10FFFF]; a Python [str] may hold lone surrogates (an argument
      of the command line that is not UTF-8 arrives as such), and a [str]
      without them is text ([is_text]);
    - a call either returns, raises, or runs forever: [outcome]. *)

From Stdlib Require Import ZArith List Lia Bool String.
From Stdlib.Strings Require Import Byte.
Import ListNotations.
Local Open Scope Z_scope.

Set Implicit Arguments.

(** ** Outcomes of a call *)

Inductive exn : Type :=
| ValueError (msg : string)
| UnicodeEncodeError
| UnicodeDecodeError
| FileNotFoundError
| SystemExit (code : Z).

Inductive outcome (A : Type) : Type :=
| Ok (a : A)
| Raise (e : exn)
| Diverge.

Arguments Raise {A} e.
Arguments Diverge {A}.

Definition bind {A B : Type} (m : outcome A) (k : A -> outcome B) : outcome B :=
  match m with
  | Ok a => k a
  | Raise e => Raise e
  | Diverge => Diverge
  end.

Notation "x <- m ;; k" := (bind m (fun x => k))
  (at level 61, m at next level, right associativity).

(** ** bytes, str and the built-ins the script uses *)

Definition bytes : Type := list byte.
Definition str : Type := list Z.

Definition int_of_byte (b : byte) : Z := Z.of_N (Byte.to_N b).

(** [len(x)] *)
Definition len {A : Type} (l : list A) : Z := Z.of_nat (List.length l).

(** [x[lo:hi]] and [x[lo:]] for constant bounds [0 <= lo <= hi]; slicing
    never raises, it yields what is there. *)
Definition slice {A : Type} (lo hi : nat) (l : list A) : list A :=
  firstn (hi - lo) (skipn lo l).

Definition slice_from {A : Type} (lo : nat) (l : list A) : list A :=
  skipn lo l.

(** One element of [bytes(iterable_of_ints)]. *)
Definition byte_of_int (z : Z) : outcome byte :=
  if z <? 0 then Raise (ValueError "bytes must be in range(0, 256)")
  else match Byte.of_N (Z.to_N z) with
       | Some b => Ok b
       | None => Raise (ValueError "bytes must be in range(0, 256)")
       end.

(** [bytes(l)] for a list of ints [l]. *)
Fixpoint py_bytes (l : list Z) : outcome bytes :=
  match l with
  | [] => Ok []
  | z :: l' =>
      b <- byte_of_int z ;;
      bs <- py_bytes l' ;;
      Ok (b :: bs)
  end.

Definition bytes_eqb (a b : bytes) : bool :=
  if list_eq_dec Byte.byte_eq_dec a b then true else false.

(** ** encode_leb128 *)

(** The state of the [while True] loop: the remaining [value] and the
    [result] list built so far. *)
Definition loop_state : Type := (Z * list Z)%type.

(** One pass through the loop body, up to and including [result.append]. *)
Definition loop_body (st : loop_state) : loop_state :=
  let '(value, result) := st in
  let byte := Z.land value 0x7F in
  let value := Z.shiftr value 7 in
  let byte := if negb (value =? 0) then Z.lor byte 0x80 else byte in
  (value, result ++ [byte]).

(** The loop, with a bound on the number of passes; [None] when the bound
    is reached before the [break]. *)
Fixpoint encode_loop (fuel : nat) (st : loop_state) : option (list Z) :=
  match fuel with
  | O => None
  | S fuel' =>
      let st' := loop_body st in
      if fst st' =? 0 then Some (snd st') else encode_loop fuel' st'
  end.

(** A number of passes that is enough whenever the loop stops at all
    (see [encode_loop_stops] and [encode_loop_negative]). *)
Definition leb128_fuel (value : Z) : nat := S (Z.to_nat (Z.log2 value)).

Definition encode_leb128 (value : Z) : outcome bytes :=
  match encode_loop (leb128_fuel value) (value, []) with
  | None => Diverge
  | Some result => py_bytes result
  end.

(** ** UTF-8: [str.encode('utf-8')] with the default strict error handler *)

Definition is_surrogate (c : Z) : bool := (0xD800 <=? c) && (c <=? 0xDFFF).

(** The ints of the encoding of one code point; [None] for a surrogate. *)
Definition utf8_encode_char (c : Z) : option (list Z) :=
  if c <? 0x80 then Some [c]
  else if c <? 0x800 then
    Some [Z.lor 0xC0 (Z.shiftr c 6); Z.lor 0x80 (Z.land c 0x3F)]
  else if c <? 0x10000 then
    if is_surrogate c then None
    else Some [Z.lor 0xE0 (Z.shiftr c 12);
               Z.lor 0x80 (Z.land (Z.shiftr c 6) 0x3F);
               Z.lor 0x80 (Z.land c 0x3F)]
  else
    Some [Z.lor 0xF0 (Z.shiftr c 18);
          Z.lor 0x80 (Z.land (Z.shiftr c 12) 0x3F);
          Z.lor 0x80 (Z.land (Z.shiftr c 6) 0x3F);
          Z.lor 0x80 (Z.land c 0x3F)].

Fixpoint utf8_encode (s : str) : outcome bytes :=
  match s with
  | [] => Ok []
  | c :: s' =>
      match utf8_encode_char c with
      | None => Raise UnicodeEncodeError
      | Some ints =>
          bs <- py_bytes ints ;;
          rest <- utf8_encode s' ;;
          Ok (bs ++ rest)
      end
  end.

(** ** add_custom_section *)

(** [b'\x00asm'] *)
Definition wasm_magic : bytes := [x00; x61; x73; x6d].

Definition add_custom_section (wasm_bytes : bytes) (name : str) (data : bytes)
  : outcome bytes :=
  let magic := slice 0 4 wasm_bytes in
  let version := slice 4 8 wasm_bytes in
  if negb (bytes_eqb magic wasm_magic) then
    Raise (ValueError "Invalid WASM file")
  else
    name_bytes <- utf8_encode name ;;
    name_len <- encode_leb128 (len name_bytes) ;;
    let section_content := name_len ++ name_bytes ++ data in
    tag <- py_bytes [0] ;;
    content_len <- encode_leb128 (len section_content) ;;
    let custom_section := tag ++ content_len ++ section_content in
    Ok (magic ++ version ++ custom_section ++ slice_from 8 wasm_bytes).

(** The record built by lines 29-33 alone: what the specification calls the
    Section Builder. *)
Definition custom_section (name : str) (data : bytes) : outcome bytes :=
  name_bytes <- utf8_encode name ;;
  name_len <- encode_leb128 (len name_bytes) ;;
  let section_content := name_len ++ name_bytes ++ data in
  tag <- py_bytes [0] ;;
  content_len <- encode_leb128 (len section_content) ;;
  Ok (tag ++ content_len ++ section_content).

(** ASCII text as a [str]. *)
Definition str_of_string (s : string) : str :=
  map int_of_byte (list_byte_of_string s).

(** ** The command-line script *)

(** What the process can see and has done: the files, by the path they are
    opened with, and the bytes written to standard output. Opening a path
    that holds no file for reading raises [FileNotFoundError]. *)
Definition filesystem : Type := str -> option bytes.

Record world : Type := mkWorld {
  files : filesystem;
  stdout : bytes
}.

Definition str_eqb (a b : str) : bool :=
  if list_eq_dec Z.eq_dec a b then true else false.

Definition usage : str :=
  str_of_string
    "Usage: add_custom_section.py <input.wasm> -s <section_name> -o <output.wasm>".

(** [sys.argv[i]], used only once the length of [argv] is known to be 6. *)
Definition argv_at (argv : list str) (i : nat) : str := nth i argv [].

Section Script.

(** [sys.stdin.read()]: the text layer of standard input, from the raw
    bytes that arrive on it. Its codec, error handler and newline
    translation are the interpreter's, fixed by platform and locale. *)
Variable stdin_read : bytes -> outcome str.

(** [with open(path, 'wb') as f: f.write(data)], as the operating system
    carries it out. Nothing is assumed of it: it may raise (no such
    directory, no permission, a full disk), and it may leave the files in
    any state, also when it raises and also under other paths than [path]
    (another spelling or a link of the same file). *)
Variable write_file : str -> bytes -> world -> outcome unit * world.

(** The text layer of standard output: the bytes for a text, or the error
    of its codec. *)
Variable stdout_encode : str -> outcome bytes.

(** Line 48: the payload handed to [add_custom_section]. *)
Definition manifest_data (stdin : bytes) : outcome bytes :=
  text <- stdin_read stdin ;;
  utf8_encode text.

(** [sys.stdout.write(text)] *)
Definition stdout_write (text : str) (w : world) : outcome unit * world :=
  match stdout_encode text with
  | Ok bs => (Ok tt, mkWorld (files w) (stdout w ++ bs))
  | Raise e => (Raise e, w)
  | Diverge => (Diverge, w)
  end.

(** [print(line)]: the line, then the newline. *)
Definition print (line : str) (w : world) : outcome unit * world :=
  match stdout_write line w with
  | (Ok _, w1) => stdout_write [10] w1
  | (Raise e, w1) => (Raise e, w1)
  | (Diverge, w1) => (Diverge, w1)
  end.

(** Lines 57-61: write the result, then report. *)
Definition write_output (output_file section_name : str) (result : bytes)
    (w : world) : outcome unit * world :=
  match write_file output_file result w with
  | (Ok _, w1) =>
      print (str_of_string "Added '" ++ section_name
             ++ str_of_string "' custom section to " ++ output_file) w1
  | (Raise e, w1) => (Raise e, w1)
  | (Diverge, w1) => (Diverge, w1)
  end.

Definition main (argv : list str) (stdin : bytes) (w : world)
  : outcome unit * world :=
  if negb (len argv =? 6)
     || negb (str_eqb (argv_at argv 2) (str_of_string "-s"))
     || negb (str_eqb (argv_at argv 4) (str_of_string "-o"))
  then
    match print usage w with
    | (Ok _, w1) => (Raise (SystemExit 1), w1)
    | (Raise e, w1) => (Raise e, w1)
    | (Diverge, w1) => (Diverge, w1)
    end
  else
    let input_file := argv_at argv 1 in
    let section_name := argv_at argv 3 in
    let output_file := argv_at argv 5 in
    match manifest_data stdin with
    | Raise e => (Raise e, w)
    | Diverge => (Diverge, w)
    | Ok manifest =>
        match files w input_file with
        | None => (Raise FileNotFoundError, w)
        | Some wasm_bytes =>
            match add_custom_section wasm_bytes section_name manifest with
            | Raise e => (Raise e, w)
            | Diverge => (Diverge, w)
            | Ok result => write_output output_file section_name result w
            end
        end
    end.

End Script.

(** A file system without links in which every path can be written: the
    write puts the data under the path and touches nothing else. One
    possible [write_file], for running the script on examples. *)
Definition simple_write_file (path : str) (data : bytes) (w : world)
  : outcome unit * world :=
  (Ok tt,
   mkWorld (fun p => if str_eqb p path then Some data else files w p)
           (stdout w)).

(** ** Readers: the decoders the specification refers to

    None of these is in the script; they are the standard decoders of the
    formats it writes, used to state the round-trip properties. *)

(** Unsigned LEB128: accumulate 7-bit groups, least significant first,
    until a byte with a clear high bit. Returns the value and what follows. *)
Fixpoint leb128_decode_from (shift acc : Z) (bs : bytes) : option (Z * bytes) :=
  match bs with
  | [] => None
  | b :: bs' =>
      let acc := Z.lor acc (Z.shiftl (Z.land (int_of_byte b) 0x7F) shift) in
      if Z.land (int_of_byte b) 0x80 =? 0 then Some (acc, bs')
      else leb128_decode_from (shift + 7) acc bs'
  end.

Definition leb128_decode (bs : bytes) : option (Z * bytes) :=
  leb128_decode_from 0 0 bs.

Definition is_continuation (x : Z) : bool := (0x80 <=? x) && (x <=? 0xBF).

(** Strict UTF-8 (well-formed sequences only: shortest form, no surrogates,
    nothing above U+10FFFF). *)
Fixpoint utf8_decode (bs : bytes) : option str :=
  match bs with
  | [] => Some []
  | b0 :: r0 =>
      let x0 := int_of_byte b0 in
      if x0 <? 0x80 then option_map (cons x0) (utf8_decode r0)
      else if x0 <? 0xC0 then None
      else if x0 <? 0xE0 then
        match r0 with
        | b1 :: r1 =>
            let x1 := int_of_byte b1 in
            let c := Z.lor (Z.shiftl (Z.land x0 0x1F) 6) (Z.land x1 0x3F) in
            if is_continuation x1 && (0x80 <=? c)
            then option_map (cons c) (utf8_decode r1) else None
        | _ => None
        end
      else if x0 <? 0xF0 then
        match r0 with
        | b1 :: b2 :: r2 =>
            let x1 := int_of_byte b1 in
            let x2 := int_of_byte b2 in
            let c := Z.lor (Z.shiftl (Z.land x0 0x0F) 12)
                       (Z.lor (Z.shiftl (Z.land x1 0x3F) 6) (Z.land x2 0x3F)) in
            if is_continuation x1 && is_continuation x2
               && (0x800 <=? c) && negb (is_surrogate c)
            then option_map (cons c) (utf8_decode r2) else None
        | _ => None
        end
      else if x0 <? 0xF8 then
        match r0 with
        | b1 :: b2 :: b3 :: r3 =>
            let x1 := int_of_byte b1 in
            let x2 := int_of_byte b2 in
            let x3 := int_of_byte b3 in
            let c := Z.lor (Z.shiftl (Z.land x0 0x07) 18)
                       (Z.lor (Z.shiftl (Z.land x1 0x3F) 12)
                          (Z.lor (Z.shiftl (Z.land x2 0x3F) 6)
                             (Z.land x3 0x3F))) in
            if is_continuation x1 && is_continuation x2 && is_continuation x3
               && (0x10000 <=? c) && (c <=? 0x10FFFF)
            then option_map (cons c) (utf8_decode r3) else None
        | _ => None
        end
      else None
  end.

(** [sys.stdin.read()] when standard input is decoded as UTF-8 with the
    strict error handler and no newline translation. *)
Definition utf8_stdin_read (stdin : bytes) : outcome str :=
  match utf8_decode stdin with
  | Some text => Ok text
  | None => Raise UnicodeDecodeError
  end.

(** A section as a reader sees it: the tag byte, the content the length
    prefix delimits, and the bytes after the section. *)
Definition read_section (bs : bytes) : option (byte * bytes * bytes) :=
  match bs with
  | [] => None
  | tag :: r =>
      match leb128_decode r with
      | None => None
      | Some (n, r') =>
          if n <=? len r'
          then Some (tag, firstn (Z.to_nat n) r', skipn (Z.to_nat n) r')
          else None
      end
  end.

(** The content of a custom section: a length-prefixed UTF-8 name, then the
    payload. *)
Definition read_custom_content (content : bytes) : option (str * bytes) :=
  match leb128_decode content with
  | None => None
  | Some (n, r) =>
      if n <=? len r
      then match utf8_decode (firstn (Z.to_nat n) r) with
           | Some name => Some (name, skipn (Z.to_nat n) r)
           | None => None
           end
      else None
  end.

(** A name the UTF-8 codec can encode: every code point is a Unicode scalar
    value. *)
Definition is_scalar (c : Z) : bool :=
  (0 <=? c) && (c <=? 0x10FFFF) && negb (is_surrogate c).

Definition is_text (s : str) : bool := forallb is_scalar s.

(** The 7-bit groups of a non-negative value, least significant first, with
    the continuation bit on all but the last. *)
Inductive leb128_groups : Z -> list Z -> Prop :=
| groups_last v : 0 <= v < 128 -> leb128_groups v [v]
| groups_more v l :
    128 <= v -> leb128_groups (v / 128) l ->
    leb128_groups v ((v mod 128 + 128) :: l).

(** The code units of a scalar value, written with [/] and [mod]; the
    codec computes the same with shifts and masks ([utf8_encode_char_units]). *)
Definition utf8_units (c : Z) : list Z :=
  if c <? 0x80 then [c]
  else if c <? 0x800 then [0xC0 + c / 64; 0x80 + c mod 64]
  else if c <? 0x10000 then
    [0xE0 + c / 4096; 0x80 + (c / 64) mod 64; 0x80 + c mod 64]
  else
    [0xF0 + c / 262144; 0x80 + (c / 4096) mod 64;
     0x80 + (c / 64) mod 64; 0x80 + c mod 64].

(** The command line the script accepts (line 39). *)
Definition argv_ok (argv : list str) : Prop :=
  len argv = 6 /\
  argv_at argv 2 = str_of_string "-s" /\
  argv_at argv 4 = str_of_string "-o".

(** A Python [str]: every element is a code point. *)
Definition is_codepoint (c : Z) : bool := (0 <=? c) && (c <=? 0x10FFFF).

Definition is_str (s : str) : bool := forallb is_codepoint s.

(** * Proofs *)

(** ** Bit operations as arithmetic *)

Lemma land_high_low a b n :
  0 <= n -> 0 <= b < 2 ^ n -> Z.land (a * 2 ^ n) b = 0.
Proof.
  intros Hn Hb. apply Z.bits_inj'. intros m Hm.
  rewrite Z.land_spec, Z.bits_0.
  destruct (Z.lt_ge_cases m n) as [Hlt | Hge].
  - rewrite Z.mul_pow2_bits_low by assumption. reflexivity.
  - destruct (Z.eq_dec b 0) as [-> | Hb0].
    + rewrite Z.bits_0. apply andb_false_r.
    + rewrite (Z.bits_above_log2 b m); [apply andb_false_r | lia |].
      assert (Z.log2 b < n) by (apply Z.log2_lt_pow2; lia). lia.
Qed.

Lemma lor_high_low a b n :
  0 <= n -> 0 <= b < 2 ^ n -> Z.lor (a * 2 ^ n) b = a * 2 ^ n + b.
Proof.
  intros Hn Hb. pose proof (land_high_low a Hn Hb) as H0.
  rewrite <- Z.lxor_lor by assumption.
  symmetry. apply Z.add_nocarry_lxor. assumption.
Qed.

Lemma land_mask a n : 0 <= n -> Z.land a (2 ^ n - 1) = a mod 2 ^ n.
Proof.
  intros Hn. rewrite <- Z.land_ones by assumption.
  f_equal. rewrite Z.ones_equiv. lia.
Qed.

Lemma land_0x7F a : Z.land a 0x7F = a mod 128.
Proof. exact (@land_mask a 7 ltac:(lia)). Qed.

Lemma land_0x3F a : Z.land a 0x3F = a mod 64.
Proof. exact (@land_mask a 6 ltac:(lia)). Qed.

Lemma land_0x1F a : Z.land a 0x1F = a mod 32.
Proof. exact (@land_mask a 5 ltac:(lia)). Qed.

Lemma land_0x0F a : Z.land a 0x0F = a mod 16.
Proof. exact (@land_mask a 4 ltac:(lia)). Qed.

Lemma land_0x07 a : Z.land a 0x07 = a mod 8.
Proof. exact (@land_mask a 3 ltac:(lia)). Qed.

Lemma shiftr_7 a : Z.shiftr a 7 = a / 128.
Proof. rewrite Z.shiftr_div_pow2 by lia. reflexivity. Qed.

Lemma shiftr_const a n : 0 <= n -> Z.shiftr a n = a / 2 ^ n.
Proof. apply Z.shiftr_div_pow2. Qed.

Lemma shiftl_const a n : 0 <= n -> Z.shiftl a n = a * 2 ^ n.
Proof. apply Z.shiftl_mul_pow2. Qed.

(** The high bit of a byte-sized int. *)
Lemma land_0x80 a : 0 <= a < 256 -> Z.land a 0x80 = 128 * (a / 128).
Proof.
  intros Ha.
  assert (Hsplit : a = (a / 128) * 2 ^ 7 + a mod 128).
  { change (2 ^ 7) with 128. pose proof (Z.div_mod a 128). lia. }
  assert (Hlow : 0 <= a mod 128 < 2 ^ 7).
  { change (2 ^ 7) with 128. apply Z.mod_pos_bound. lia. }
  assert (Hq : a / 128 = 0 \/ a / 128 = 1).
  { assert (0 <= a / 128 < 2); [| lia].
    split; [apply Z.div_pos; lia | apply Z.div_lt_upper_bound; lia]. }
  rewrite Hsplit at 1.
  rewrite <- lor_high_low by (assumption || lia).
  rewrite Z.land_lor_distr_l.
  replace (Z.land (a mod 128) 128) with 0.
  2:{ symmetry. rewrite Z.land_comm.
      apply (@land_high_low 1 (a mod 128) 7); [lia | assumption]. }
  rewrite Z.lor_0_r.
  destruct Hq as [-> | ->]; reflexivity.
Qed.

(** [k | b] when the set bits of [k] all lie above those of [b]. *)
Lemma lor_add_low k b a n :
  k = a * 2 ^ n -> 0 <= n -> 0 <= b < 2 ^ n -> Z.lor k b = k + b.
Proof. intros -> Hn Hb. apply lor_high_low; assumption. Qed.

Lemma lor_0x80 b : 0 <= b < 128 -> Z.lor b 0x80 = b + 128.
Proof.
  intros Hb. rewrite Z.lor_comm.
  rewrite (@lor_add_low 128 b 1 7); change (2 ^ 7) with 128; lia.
Qed.

(** ** The loop of encode_leb128 *)

Lemma loop_body_eq v acc :
  loop_body (v, acc) =
  (v / 128,
   acc ++ [if v / 128 =? 0 then v mod 128 else Z.lor (v mod 128) 0x80]).
Proof.
  unfold loop_body. rewrite shiftr_7, land_0x7F.
  destruct (v / 128 =? 0); reflexivity.
Qed.

Lemma loop_body_fst st : fst (loop_body st) = Z.shiftr (fst st) 7.
Proof. destruct st as [v acc]. reflexivity. Qed.

(** The passes of the loop, one after the other. *)
Lemma passes_succ_r k st :
  Nat.iter (S k) loop_body st = Nat.iter k loop_body (loop_body st).
Proof. apply Nat.iter_succ_r. Qed.

Lemma passes_value k st :
  fst (Nat.iter k loop_body st) = Z.shiftr (fst st) (7 * Z.of_nat k).
Proof.
  induction k as [| k IH].
  - simpl. rewrite Z.shiftr_0_r. reflexivity.
  - change (Nat.iter (S k) loop_body st)
      with (loop_body (Nat.iter k loop_body st)).
    rewrite loop_body_fst, IH.
    rewrite Z.shiftr_shiftr by lia. f_equal. lia.
Qed.

(** What [encode_loop] returns is the list after the first pass that
    leaves the value at zero. *)
Lemma encode_loop_passes fuel : forall st l,
  encode_loop fuel st = Some l ->
  exists k, (1 <= k <= fuel)%nat /\
            fst (Nat.iter k loop_body st) = 0 /\
            (forall j, (1 <= j < k)%nat -> fst (Nat.iter j loop_body st) <> 0) /\
            l = snd (Nat.iter k loop_body st).
Proof.
  induction fuel as [| fuel IH]; intros st l H; [discriminate |].
  cbn [encode_loop] in H.
  destruct (fst (loop_body st) =? 0) eqn:E.
  - apply Z.eqb_eq in E. injection H as <-.
    exists 1%nat. split; [lia |]. split; [exact E |].
    split; [intros j Hj; lia | reflexivity].
  - apply Z.eqb_neq in E.
    destruct (IH _ _ H) as (k & Hk & Hz & Hnz & Hl).
    exists (S k). rewrite passes_succ_r.
    split; [lia |]. split; [assumption |]. split; [| assumption].
    intros j Hj. destruct j as [| j]; [lia |].
    rewrite passes_succ_r.
    destruct j as [| j]; [exact E | apply Hnz; lia].
Qed.

Lemma passes_encode_loop fuel : forall k st,
  (1 <= k <= fuel)%nat ->
  fst (Nat.iter k loop_body st) = 0 ->
  (forall j, (1 <= j < k)%nat -> fst (Nat.iter j loop_body st) <> 0) ->
  encode_loop fuel st = Some (snd (Nat.iter k loop_body st)).
Proof.
  induction fuel as [| fuel IH]; intros k st Hk Hz Hnz; [lia |].
  cbn [encode_loop].
  destruct (fst (loop_body st) =? 0) eqn:E.
  - apply Z.eqb_eq in E.
    destruct k as [| [| k]]; [lia | reflexivity |].
    exfalso. apply (Hnz 1%nat); [lia | exact E].
  - apply Z.eqb_neq in E.
    destruct k as [| [| k]]; [lia | simpl in Hz; contradiction |].
    rewrite (passes_succ_r (S k)). apply IH.
    + lia.
    + rewrite <- passes_succ_r. assumption.
    + intros j Hj. rewrite <- passes_succ_r. apply Hnz. lia.
Qed.

(** More fuel never changes a result. *)
Lemma encode_loop_mono fuel fuel' st l :
  (fuel <= fuel')%nat ->
  encode_loop fuel st = Some l -> encode_loop fuel' st = Some l.
Proof.
  intros Hle H.
  destruct (encode_loop_passes _ _ H) as (k & Hk & Hz & Hnz & ->).
  apply passes_encode_loop; try assumption. lia.
Qed.

(** On a negative value the loop never reaches its [break]: [>>] keeps the
    sign. *)
Lemma encode_loop_negative fuel : forall v acc,
  v < 0 -> encode_loop fuel (v, acc) = None.
Proof.
  induction fuel as [| fuel IH]; intros v acc Hv; [reflexivity |].
  cbn [encode_loop]. rewrite loop_body_eq. cbn [fst snd].
  assert (Hq : v / 128 < 0) by (apply Z.div_lt_upper_bound; lia).
  destruct (v / 128 =? 0) eqn:E; [apply Z.eqb_eq in E; lia |].
  apply IH. assumption.
Qed.

Lemma encode_loop_acc fuel : forall v acc,
  encode_loop fuel (v, acc) = option_map (app acc) (encode_loop fuel (v, [])).
Proof.
  induction fuel as [| fuel IH]; intros v acc; [reflexivity |].
  cbn [encode_loop]. rewrite !loop_body_eq. cbn [fst snd].
  destruct (v / 128 =? 0).
  - reflexivity.
  - rewrite IH. rewrite (IH _ ([] ++ _)).
    destruct (encode_loop fuel (v / 128, [])) as [l |]; [| reflexivity].
    cbn [option_map]. rewrite <- app_assoc. reflexivity.
Qed.

Lemma encode_loop_step fuel v :
  encode_loop (S fuel) (v, []) =
  if v / 128 =? 0 then Some [v mod 128]
  else option_map (cons (Z.lor (v mod 128) 0x80))
                  (encode_loop fuel (v / 128, [])).
Proof.
  cbn [encode_loop]. rewrite loop_body_eq. cbn [fst snd].
  destruct (v / 128 =? 0); [reflexivity |].
  rewrite encode_loop_acc. reflexivity.
Qed.

Lemma encode_loop_groups fuel : forall v,
  0 <= v < 2 ^ (7 * Z.of_nat (S fuel)) ->
  exists l, encode_loop (S fuel) (v, []) = Some l /\ leb128_groups v l.
Proof.
  induction fuel as [| fuel IH]; intros v Hv; rewrite encode_loop_step.
  - change (2 ^ (7 * Z.of_nat 1)) with 128 in Hv.
    rewrite Z.div_small by assumption. cbn [Z.eqb].
    rewrite Z.mod_small by assumption.
    eexists; split; [reflexivity | constructor; assumption].
  - destruct (v / 128 =? 0) eqn:E.
    + apply Z.eqb_eq in E.
      assert (v < 128).
      { pose proof (Z.div_mod v 128). pose proof (Z.mod_pos_bound v 128). lia. }
      rewrite Z.mod_small by lia.
      eexists; split; [reflexivity | constructor; lia].
    + apply Z.eqb_neq in E.
      assert (H128 : 128 <= v).
      { destruct (Z.lt_ge_cases v 128); [| assumption].
        rewrite Z.div_small in E by lia. contradiction. }
      destruct (IH (v / 128)) as (l & Hl & Hg).
      { split; [apply Z.div_pos; lia |].
        apply Z.div_lt_upper_bound; [lia |].
        replace (7 * Z.of_nat (S (S fuel))) with (7 + 7 * Z.of_nat (S fuel))
          in Hv by lia.
        rewrite Z.pow_add_r in Hv by lia. exact (proj2 Hv). }
      rewrite Hl. cbn [option_map].
      rewrite lor_0x80 by (apply Z.mod_pos_bound; lia).
      eexists; split; [reflexivity | constructor; assumption].
Qed.

Lemma leb128_fuel_enough v :
  0 <= v -> v < 2 ^ (7 * Z.of_nat (leb128_fuel v)).
Proof.
  intros Hv. unfold leb128_fuel.
  pose proof (Z.log2_nonneg v) as Hl.
  rewrite Nat2Z.inj_succ, Z2Nat.id by assumption.
  apply Z.lt_le_trans with (2 ^ Z.succ (Z.log2 v)).
  - destruct (Z.eq_dec v 0) as [-> | Hnz]; [reflexivity |].
    apply Z.log2_spec. lia.
  - apply Z.pow_le_mono_r; lia.
Qed.

Lemma encode_loop_stops v :
  0 <= v ->
  exists l, encode_loop (leb128_fuel v) (v, []) = Some l /\ leb128_groups v l.
Proof.
  intros Hv. apply encode_loop_groups. split; [assumption |].
  apply (leb128_fuel_enough Hv).
Qed.

(** ** Ints and bytes *)

Lemma int_of_byte_range b : 0 <= int_of_byte b < 256.
Proof.
  unfold int_of_byte. pose proof (Byte.to_N_bounded b). lia.
Qed.

Lemma int_of_byte_inj a b : int_of_byte a = int_of_byte b -> a = b.
Proof.
  unfold int_of_byte. intros H. apply N2Z.inj in H.
  pose proof (Byte.of_to_N a) as Ha. rewrite H, Byte.of_to_N in Ha.
  congruence.
Qed.

Lemma byte_of_int_inv z b : byte_of_int z = Ok b -> int_of_byte b = z.
Proof.
  unfold byte_of_int, int_of_byte.
  destruct (z <? 0) eqn:E; [discriminate |]. apply Z.ltb_ge in E.
  destruct (Byte.of_N (Z.to_N z)) as [b' |] eqn:Eb; [| discriminate].
  intros [= <-]. apply Byte.to_of_N in Eb. rewrite Eb. lia.
Qed.

Lemma byte_of_int_ok z :
  0 <= z < 256 -> exists b, byte_of_int z = Ok b /\ int_of_byte b = z.
Proof.
  intros Hz. unfold byte_of_int.
  destruct (z <? 0) eqn:E; [apply Z.ltb_lt in E; lia |].
  destruct (Byte.of_N (Z.to_N z)) as [b |] eqn:Eb.
  - exists b. split; [reflexivity |].
    unfold int_of_byte. apply Byte.to_of_N in Eb. rewrite Eb. lia.
  - apply Byte.of_N_None_iff in Eb. lia.
Qed.

Lemma py_bytes_inv l : forall bs,
  py_bytes l = Ok bs -> map int_of_byte bs = l.
Proof.
  induction l as [| z l IH]; intros bs H; simpl in H.
  - injection H as <-. reflexivity.
  - destruct (byte_of_int z) as [b | |] eqn:Eb; try discriminate.
    cbn [bind] in H.
    destruct (py_bytes l) as [bs' | |]; try discriminate.
    cbn [bind] in H. injection H as <-.
    simpl. rewrite (byte_of_int_inv _ Eb), (IH _ eq_refl). reflexivity.
Qed.

Lemma py_bytes_ok l :
  Forall (fun z => 0 <= z < 256) l ->
  exists bs, py_bytes l = Ok bs /\ map int_of_byte bs = l.
Proof.
  induction 1 as [| z l Hz _ (bs & Hbs & Hmap)].
  - exists []. split; reflexivity.
  - destruct (byte_of_int_ok Hz) as (b & Hb & Hib).
    exists (b :: bs). simpl. rewrite Hb, Hbs. cbn [bind].
    split; [reflexivity |]. rewrite Hib, Hmap. reflexivity.
Qed.

Lemma py_bytes_of_bytes bs : py_bytes (map int_of_byte bs) = Ok bs.
Proof.
  destruct (@py_bytes_ok (map int_of_byte bs)) as (bs' & H & Hmap).
  - apply Forall_forall. intros z Hz. apply in_map_iff in Hz.
    destruct Hz as (b & <- & _). apply int_of_byte_range.
  - rewrite H. f_equal.
    clear H. revert bs' Hmap.
    induction bs as [| b bs IH]; intros [| b' bs'] Hmap;
      try discriminate; [reflexivity |].
    simpl in Hmap. injection Hmap as Hb Hrest.
    apply int_of_byte_inj in Hb. subst. f_equal. apply IH. assumption.
Qed.

(** ** The shape of an encoding *)

Lemma groups_nonneg v l : leb128_groups v l -> 0 <= v.
Proof. destruct 1; lia. Qed.

Lemma groups_range v l :
  leb128_groups v l -> Forall (fun z => 0 <= z < 256) l.
Proof.
  induction 1 as [v Hv | v l Hv _ IH].
  - constructor; [lia | constructor].
  - constructor; [| assumption].
    pose proof (Z.mod_pos_bound v 128). lia.
Qed.

(** Every group but the last has the continuation bit; the last has not,
    and is zero only for the value zero. *)
Lemma groups_shape v l :
  leb128_groups v l ->
  exists init final,
    l = init ++ [final] /\
    Forall (fun z => 128 <= z < 256) init /\
    0 <= final < 128 /\
    (0 < v -> final <> 0).
Proof.
  induction 1 as [v Hv | v l Hv Hg (init & final & -> & Hinit & Hfinal & Hnz)].
  - exists [], v. repeat split; try lia. constructor.
  - exists ((v mod 128 + 128) :: init), final. repeat split; try lia.
    + constructor; [| assumption].
      pose proof (Z.mod_pos_bound v 128). lia.
    + intros _. apply Hnz.
      apply Z.div_str_pos. lia.
Qed.

(** The number of groups is the least that holds the value. *)
Lemma groups_length v l :
  leb128_groups v l ->
  v < 2 ^ (7 * len l) /\ (1 < len l -> 2 ^ (7 * (len l - 1)) <= v).
Proof.
  unfold len.
  induction 1 as [v Hv | v l Hv Hg [IHu IHl]].
  - simpl. split; [change (2 ^ 7) with 128; lia | lia].
  - cbn [List.length]. rewrite Nat2Z.inj_succ.
    assert (Hpos : 0 < Z.of_nat (List.length l)).
    { destruct Hg; simpl; lia. }
    pose proof (Z.div_mod v 128) as Hdm.
    pose proof (Z.mod_pos_bound v 128) as Hmod.
    split.
    + replace (7 * Z.succ (Z.of_nat (List.length l)))
        with (7 + 7 * Z.of_nat (List.length l)) by lia.
      rewrite Z.pow_add_r by lia. change (2 ^ 7) with 128. lia.
    + intros _.
      replace (Z.succ (Z.of_nat (List.length l)) - 1)
        with (Z.of_nat (List.length l)) by lia.
      destruct (Z.eq_dec (Z.of_nat (List.length l)) 1) as [E1 | E1].
      * rewrite E1. change (2 ^ (7 * 1)) with 128. lia.
      * replace (7 * Z.of_nat (List.length l))
          with (7 + 7 * (Z.of_nat (List.length l) - 1)) by lia.
        rewrite Z.pow_add_r by lia. change (2 ^ 7) with 128.
        assert (2 ^ (7 * (Z.of_nat (List.length l) - 1)) <= v / 128)
          by (apply IHl; lia).
        lia.
Qed.

(** ** Decoding an encoding *)

Lemma leb128_decode_groups v l :
  leb128_groups v l ->
  forall bs rest shift acc,
    map int_of_byte bs = l -> 0 <= shift ->
    leb128_decode_from shift acc (bs ++ rest)
    = Some (Z.lor acc (Z.shiftl v shift), rest).
Proof.
  induction 1 as [v Hv | v l Hv Hg IH]; intros bs rest shift acc Hmap Hs.
  - destruct bs as [| b [| b' bs]]; try discriminate.
    injection Hmap as Hb. cbn [app leb128_decode_from].
    rewrite Hb, land_0x7F, land_0x80 by lia.
    rewrite Z.mod_small, Z.div_small by lia. reflexivity.
  - destruct bs as [| b bs]; [discriminate |].
    injection Hmap as Hb Hmap. cbn [app leb128_decode_from].
    pose proof (Z.mod_pos_bound v 128 ltac:(lia)) as Hmod.
    rewrite Hb, land_0x7F, land_0x80 by lia.
    replace ((v mod 128 + 128) / 128) with 1
      by (apply Z.div_unique with (v mod 128); lia).
    replace ((v mod 128 + 128) mod 128) with (v mod 128)
      by (apply Z.mod_unique with 1; lia).
    cbn [Z.mul Z.eqb Pos.mul].
    rewrite (IH bs rest (shift + 7) _ Hmap) by lia.
    f_equal. f_equal.
    rewrite <- Z.lor_assoc. f_equal.
    rewrite Z.add_comm, <- Z.shiftl_shiftl by lia.
    rewrite <- Z.shiftl_lor. f_equal.
    rewrite Z.lor_comm, shiftl_const by lia.
    rewrite lor_high_low by (change (2 ^ 7) with 128; lia).
    change (2 ^ 7) with 128. pose proof (Z.div_mod v 128). lia.
Qed.

(** A decoder that has consumed [k] bytes holds a value below [2^(7k)]. *)
Lemma leb128_decode_bound bs : forall shift acc v rest,
  0 <= shift -> 0 <= acc < 2 ^ shift ->
  leb128_decode_from shift acc bs = Some (v, rest) ->
  0 <= v < 2 ^ (shift + 7 * (len bs - len rest)) /\ len rest < len bs.
Proof.
  unfold len.
  induction bs as [| b bs IH]; intros shift acc v rest Hs Hacc H;
    [discriminate |].
  cbn [leb128_decode_from] in H.
  pose proof (Z.mod_pos_bound (int_of_byte b) 128 ltac:(lia)) as Hmod.
  assert (Hnew : 0 <= Z.lor acc (Z.shiftl (Z.land (int_of_byte b) 0x7F) shift)
                 < 2 ^ (shift + 7)).
  { rewrite land_0x7F, shiftl_const, Z.lor_comm by assumption.
    rewrite lor_high_low by assumption.
    rewrite Z.pow_add_r by lia. change (2 ^ 7) with 128.
    assert (Hp : 0 < 2 ^ shift) by (apply Z.pow_pos_nonneg; lia).
    assert (0 <= int_of_byte b mod 128 * 2 ^ shift)
      by (apply Z.mul_nonneg_nonneg; lia).
    assert (int_of_byte b mod 128 * 2 ^ shift <= 127 * 2 ^ shift)
      by (apply Z.mul_le_mono_nonneg_r; lia).
    lia. }
  cbn [List.length]. rewrite Nat2Z.inj_succ.
  destruct (Z.land (int_of_byte b) 0x80 =? 0).
  - injection H as <- <-.
    replace (shift + 7 * (Z.succ (Z.of_nat (List.length bs))
                           - Z.of_nat (List.length bs)))
      with (shift + 7) by lia.
    split; [assumption | lia].
  - assert (Hs7 : 0 <= shift + 7) by lia.
    destruct (IH _ _ _ _ Hs7 Hnew H) as [Hb Hl].
    split; [| lia].
    replace (shift + 7 * (Z.succ (Z.of_nat (List.length bs))
                           - Z.of_nat (List.length rest)))
      with (shift + 7 + 7 * (Z.of_nat (List.length bs)
                              - Z.of_nat (List.length rest))) by lia.
    assumption.
Qed.

(** The encoder on a non-negative value: it returns, and what it returns
    is the bytes of the value's groups. *)
Lemma encode_leb128_groups n :
  0 <= n ->
  exists bs, encode_leb128 n = Ok bs /\
             leb128_groups n (map int_of_byte bs).
Proof.
  intros Hn. destruct (encode_loop_stops Hn) as (l & Hl & Hg).
  destruct (py_bytes_ok (groups_range Hg)) as (bs & Hbs & Hmap).
  exists bs. unfold encode_leb128. rewrite Hl, Hbs, Hmap.
  split; [reflexivity | assumption].
Qed.

Lemma encode_leb128_decode n bs rest :
  0 <= n -> encode_leb128 n = Ok bs ->
  leb128_decode (bs ++ rest) = Some (n, rest).
Proof.
  intros Hn H. destruct (encode_leb128_groups Hn) as (bs' & H' & Hg).
  rewrite H in H'. injection H' as <-.
  unfold leb128_decode.
  rewrite (leb128_decode_groups Hg bs rest (shift := 0) 0 eq_refl)
    by lia.
  rewrite Z.shiftl_0_r. reflexivity.
Qed.

(** On a negative value the call does not return. *)
Lemma encode_leb128_negative n : n < 0 -> encode_leb128 n = Diverge.
Proof.
  intros Hn. unfold encode_leb128.
  rewrite encode_loop_negative by assumption. reflexivity.
Qed.

(** The continuation bit is set on every byte of an encoding but the
    last, which is zero only when the value is. *)
Lemma encode_leb128_shape n bs :
  0 <= n -> encode_leb128 n = Ok bs ->
  exists init final,
    bs = init ++ [final] /\
    Forall (fun b => Z.land (int_of_byte b) 0x80 <> 0) init /\
    Z.land (int_of_byte final) 0x80 = 0 /\
    (0 < n -> final <> x00).
Proof.
  intros Hn H. destruct (encode_leb128_groups Hn) as (bs' & H' & Hg).
  rewrite H in H'. injection H' as <-.
  destruct (groups_shape Hg) as (li & lf & Hsplit & Hinit & Hfinal & Hnz).
  apply map_eq_app in Hsplit.
  destruct Hsplit as (init & tl & -> & Hmi & Hmf).
  destruct tl as [| final [| ? ?]]; try discriminate.
  injection Hmf as Hf.
  exists init, final. split; [reflexivity |]. split; [| split].
  - subst li. apply Forall_forall. intros b Hb.
    rewrite Forall_forall in Hinit.
    assert (Hr : 128 <= int_of_byte b < 256)
      by (apply Hinit, in_map; assumption).
    rewrite land_0x80 by lia.
    replace (int_of_byte b / 128) with 1; [lia |].
    apply Z.div_unique with (int_of_byte b - 128); lia.
  - rewrite land_0x80 by lia. rewrite Z.div_small by lia. reflexivity.
  - intros Hpos ->. apply (Hnz Hpos). rewrite <- Hf. reflexivity.
Qed.

(** No byte sequence from which the decoder reads [n] is shorter than the
    encoding of [n]. *)
Lemma encode_leb128_shortest n bs bs' rest :
  0 <= n -> encode_leb128 n = Ok bs ->
  leb128_decode bs' = Some (n, rest) ->
  len bs <= len bs' - len rest.
Proof.
  intros Hn H Hd. destruct (encode_leb128_groups Hn) as (bs0 & H0 & Hg).
  rewrite H in H0. injection H0 as <-.
  destruct (groups_length Hg) as [_ Hlow].
  assert (Hlen : len (map int_of_byte bs) = len bs)
    by (unfold len; rewrite length_map; reflexivity).
  rewrite Hlen in Hlow.
  unfold leb128_decode in Hd.
  destruct (@leb128_decode_bound bs' 0 0 n rest) as [Hup Hk];
    [lia | change (2 ^ 0) with 1; lia | assumption |].
  rewrite Z.add_0_l in Hup.
  destruct (Z.le_gt_cases (len bs) 1) as [Hle | Hgt]; [lia |].
  specialize (Hlow Hgt).
  assert (Hlt : 2 ^ (7 * (len bs - 1)) < 2 ^ (7 * (len bs' - len rest)))
    by lia.
  apply Z.pow_lt_mono_r_iff in Hlt; lia.
Qed.

(** ** UTF-8 *)

Ltac dm_lia := Z.div_mod_to_equations; lia.

Lemma is_scalar_spec c :
  is_scalar c = true <->
  (0 <= c < 0xD800 \/ 0xDFFF < c <= 0x10FFFF).
Proof.
  unfold is_scalar, is_surrogate.
  rewrite !andb_true_iff, negb_true_iff, andb_false_iff.
  rewrite !Z.leb_le, !Z.leb_gt. lia.
Qed.

Lemma lor_shiftl_add a n b :
  0 <= n -> 0 <= b < 2 ^ n -> Z.lor (Z.shiftl a n) b = a * 2 ^ n + b.
Proof.
  intros Hn Hb. rewrite shiftl_const by assumption.
  apply lor_high_low; assumption.
Qed.

Lemma utf8_encode_char_units c :
  is_scalar c = true -> utf8_encode_char c = Some (utf8_units c).
Proof.
  intros Hc. apply is_scalar_spec in Hc.
  unfold utf8_encode_char, utf8_units.
  destruct (Z.ltb_spec c 0x80); [reflexivity |].
  rewrite !land_0x3F.
  rewrite (shiftr_const c (n := 6)), (shiftr_const c (n := 12)),
    (shiftr_const c (n := 18)) by lia.
  change (2 ^ 6) with 64. change (2 ^ 12) with 4096.
  change (2 ^ 18) with 262144.
  assert (Hlow : forall x, Z.lor 0x80 (x mod 64) = 0x80 + x mod 64).
  { intros x. apply (@lor_add_low 0x80 (x mod 64) 2 6); [reflexivity | lia |].
    change (2 ^ 6) with 64. apply Z.mod_pos_bound. lia. }
  rewrite !Hlow.
  destruct (Z.ltb_spec c 0x800).
  - rewrite (@lor_add_low 0xC0 (c / 64) 6 5);
      [reflexivity | reflexivity | lia | change (2 ^ 5) with 32; dm_lia].
  - destruct (Z.ltb_spec c 0x10000).
    + replace (is_surrogate c) with false.
      2:{ symmetry. unfold is_surrogate. apply andb_false_iff.
          rewrite !Z.leb_gt. lia. }
      rewrite (@lor_add_low 0xE0 (c / 4096) 14 4);
        [reflexivity | reflexivity | lia | change (2 ^ 4) with 16; dm_lia].
    + rewrite (@lor_add_low 0xF0 (c / 262144) 30 3);
        [reflexivity | reflexivity | lia | change (2 ^ 3) with 8; dm_lia].
Qed.

Lemma utf8_units_range c :
  is_scalar c = true -> Forall (fun z => 0 <= z < 256) (utf8_units c).
Proof.
  intros Hc. apply is_scalar_spec in Hc. unfold utf8_units.
  destruct (Z.ltb_spec c 0x80); [| destruct (Z.ltb_spec c 0x800);
    [| destruct (Z.ltb_spec c 0x10000)]];
    repeat (constructor; [dm_lia |]); constructor.
Qed.

Ltac decide_ltb :=
  repeat match goal with
         | |- context [?a <? ?b] =>
             destruct (Z.ltb_spec a b); try (exfalso; dm_lia)
         end.

Ltac decide_leb :=
  repeat match goal with
         | |- context [?a <=? ?b] =>
             destruct (Z.leb_spec a b); try (exfalso; dm_lia)
         end.

Lemma map_cons_eq (A B : Type) (f : A -> B) a l b l' :
  map f (a :: l) = b :: l' -> f a = b /\ map f l = l'.
Proof. intros H. injection H as H1 H2. split; assumption. Qed.

(** The decoder reads back the code units of a scalar value. *)
Lemma utf8_decode_units c bs rest :
  is_scalar c = true -> map int_of_byte bs = utf8_units c ->
  utf8_decode (bs ++ rest) = option_map (cons c) (utf8_decode rest).
Proof.
  intros Hc Hmap. apply is_scalar_spec in Hc. unfold utf8_units in Hmap.
  destruct (Z.ltb_spec c 0x80); [| destruct (Z.ltb_spec c 0x800);
    [| destruct (Z.ltb_spec c 0x10000)]].
  - destruct bs as [| b0 [| ? ?]]; try discriminate.
    destruct (map_cons_eq Hmap) as [E0 _]. cbn [app utf8_decode]. cbv zeta.
    rewrite E0. decide_ltb. reflexivity.
  - destruct bs as [| b0 [| b1 [| ? ?]]]; try discriminate.
    destruct (map_cons_eq Hmap) as [E0 Hm1]. destruct (map_cons_eq Hm1) as [E1 _]. cbn [app utf8_decode]. cbv zeta.
    rewrite E0, E1. decide_ltb. rewrite land_0x1F, land_0x3F.
    rewrite (@lor_shiftl_add _ 6) by (change (2 ^ 6) with 64; dm_lia).
    change (2 ^ 6) with 64.
    replace ((192 + c / 64) mod 32 * 64 + (128 + c mod 64) mod 64)
      with c by dm_lia.
    unfold is_continuation. decide_leb; reflexivity.
  - destruct bs as [| b0 [| b1 [| b2 [| ? ?]]]]; try discriminate.
    destruct (map_cons_eq Hmap) as [E0 Hm1]. destruct (map_cons_eq Hm1) as [E1 Hm2].
    destruct (map_cons_eq Hm2) as [E2 _]. cbn [app utf8_decode]. cbv zeta.
    rewrite E0, E1, E2. decide_ltb. rewrite land_0x0F, !land_0x3F.
    rewrite (@lor_shiftl_add _ 6) by (change (2 ^ 6) with 64; dm_lia).
    rewrite (@lor_shiftl_add _ 12) by (change (2 ^ 12) with 4096;
                                       change (2 ^ 6) with 64; dm_lia).
    change (2 ^ 6) with 64. change (2 ^ 12) with 4096.
    replace ((224 + c / 4096) mod 16 * 4096
             + ((128 + (c / 64) mod 64) mod 64 * 64
                + (128 + c mod 64) mod 64))
      with c by dm_lia.
    unfold is_continuation, is_surrogate. decide_leb; reflexivity.
  - destruct bs as [| b0 [| b1 [| b2 [| b3 [| ? ?]]]]]; try discriminate.
    destruct (map_cons_eq Hmap) as [E0 Hm1]. destruct (map_cons_eq Hm1) as [E1 Hm2].
    destruct (map_cons_eq Hm2) as [E2 Hm3]. destruct (map_cons_eq Hm3) as [E3 _]. cbn [app utf8_decode]. cbv zeta.
    rewrite E0, E1, E2, E3. decide_ltb. rewrite land_0x07, !land_0x3F.
    rewrite (@lor_shiftl_add _ 6) by (change (2 ^ 6) with 64; dm_lia).
    rewrite (@lor_shiftl_add _ 12) by (change (2 ^ 12) with 4096;
                                       change (2 ^ 6) with 64; dm_lia).
    rewrite (@lor_shiftl_add _ 18) by (change (2 ^ 18) with 262144;
                                       change (2 ^ 12) with 4096;
                                       change (2 ^ 6) with 64; dm_lia).
    change (2 ^ 6) with 64. change (2 ^ 12) with 4096.
    change (2 ^ 18) with 262144.
    replace ((240 + c / 262144) mod 8 * 262144
             + ((128 + (c / 4096) mod 64) mod 64 * 4096
                + ((128 + (c / 64) mod 64) mod 64 * 64
                   + (128 + c mod 64) mod 64)))
      with c by dm_lia.
    unfold is_continuation. decide_leb; reflexivity.
Qed.

(** Text encodes, and the strict decoder reads it back. *)
Lemma utf8_encode_text s :
  is_text s = true ->
  exists bs, utf8_encode s = Ok bs /\ utf8_decode bs = Some s.
Proof.
  induction s as [| c s IH]; intros Hs.
  - exists []. split; reflexivity.
  - simpl in Hs. apply andb_true_iff in Hs. destruct Hs as [Hc Hs].
    destruct (IH Hs) as (rest & Hrest & Hdec).
    destruct (py_bytes_ok (utf8_units_range c Hc)) as (bs & Hbs & Hmap).
    exists (bs ++ rest). cbn [utf8_encode].
    rewrite (utf8_encode_char_units c Hc), Hbs, Hrest. cbn [bind].
    split; [reflexivity |].
    rewrite (utf8_decode_units c bs rest Hc Hmap), Hdec. reflexivity.
Qed.

Lemma utf8_encode_cons c bs s rest :
  is_scalar c = true -> map int_of_byte bs = utf8_units c ->
  utf8_encode s = Ok rest -> utf8_encode (c :: s) = Ok (bs ++ rest).
Proof.
  intros Hc Hmap Hrest. cbn [utf8_encode].
  rewrite (utf8_encode_char_units c Hc), <- Hmap, py_bytes_of_bytes, Hrest.
  reflexivity.
Qed.

Ltac bool_hyps :=
  repeat match goal with
         | H : _ && _ = true |- _ =>
             apply andb_true_iff in H; destruct H
         | H : negb _ = true |- _ => apply negb_true_iff in H
         | H : _ && _ = false |- _ => apply andb_false_iff in H
         | H : (_ <=? _) = true |- _ => apply Z.leb_le in H
         | H : (_ <=? _) = false |- _ => apply Z.leb_gt in H
         end.

(** What the strict decoder accepts is text, and the codec encodes it back
    to the same bytes. *)
Lemma utf8_decode_encode n : forall bs s,
  (List.length bs <= n)%nat -> utf8_decode bs = Some s ->
  utf8_encode s = Ok bs /\ is_text s = true.
Proof.
  induction n as [| n IH]; intros bs s Hlen H.
  - destruct bs; [| simpl in Hlen; lia].
    injection H as <-. split; reflexivity.
  - destruct bs as [| b0 r0]; [injection H as <-; split; reflexivity |].
    cbn [List.length] in Hlen.
    cbn [utf8_decode] in H. cbv zeta in H.
    pose proof (int_of_byte_range b0) as R0.
    destruct (Z.ltb_spec (int_of_byte b0) 0x80) as [L1 | L1].
    { destruct (utf8_decode r0) as [s' |] eqn:E; [| discriminate].
      injection H as <-.
      destruct (IH r0 s' ltac:(lia) E) as [He Ht].
      assert (Hsc : is_scalar (int_of_byte b0) = true)
        by (apply is_scalar_spec; lia).
      split; [| cbn [is_text forallb]; rewrite Hsc; exact Ht].
      apply (@utf8_encode_cons _ [b0] s' r0 Hsc); [| assumption].
      unfold utf8_units. destruct (Z.ltb_spec (int_of_byte b0) 0x80);
        [reflexivity | lia]. }
    destruct (Z.ltb_spec (int_of_byte b0) 0xC0) as [L2 | L2];
      [discriminate |].
    destruct (Z.ltb_spec (int_of_byte b0) 0xE0) as [L3 | L3].
    { destruct r0 as [| b1 r1]; [discriminate |].
      pose proof (int_of_byte_range b1) as R1.
      rewrite land_0x1F, land_0x3F in H.
      rewrite (@lor_shiftl_add _ 6) in H
        by (change (2 ^ 6) with 64; dm_lia).
      change (2 ^ 6) with 64 in H.
      remember (int_of_byte b0 mod 32 * 64 + int_of_byte b1 mod 64) as c
        eqn:Hc.
      destruct (is_continuation (int_of_byte b1) && (128 <=? c)) eqn:Ec;
        [| discriminate].
      unfold is_continuation in Ec. bool_hyps.
      destruct (utf8_decode r1) as [s' |] eqn:E; [| discriminate].
      injection H as <-. cbn [List.length] in Hlen.
      destruct (IH r1 s' ltac:(lia) E) as [He Ht].
      assert (Hsc : is_scalar c = true)
        by (apply is_scalar_spec; dm_lia).
      split; [| cbn [is_text forallb]; rewrite Hsc; exact Ht].
      apply (@utf8_encode_cons _ [b0; b1] s' r1 Hsc); [| assumption].
      unfold utf8_units.
      destruct (Z.ltb_spec c 0x80); [lia |].
      destruct (Z.ltb_spec c 0x800); [| exfalso; dm_lia].
      cbn [map]. f_equal; [dm_lia |]. f_equal. dm_lia. }
    destruct (Z.ltb_spec (int_of_byte b0) 0xF0) as [L4 | L4].
    { destruct r0 as [| b1 [| b2 r2]]; try discriminate.
      pose proof (int_of_byte_range b1) as R1.
      pose proof (int_of_byte_range b2) as R2.
      rewrite land_0x0F, !land_0x3F in H.
      rewrite (@lor_shiftl_add _ 6) in H
        by (change (2 ^ 6) with 64; dm_lia).
      rewrite (@lor_shiftl_add _ 12) in H
        by (change (2 ^ 12) with 4096; change (2 ^ 6) with 64; dm_lia).
      change (2 ^ 6) with 64 in H. change (2 ^ 12) with 4096 in H.
      remember (int_of_byte b0 mod 16 * 4096
                + (int_of_byte b1 mod 64 * 64 + int_of_byte b2 mod 64)) as c
        eqn:Hc.
      destruct (is_continuation (int_of_byte b1)
                && is_continuation (int_of_byte b2)
                && (2048 <=? c) && negb (is_surrogate c)) eqn:Ec;
        [| discriminate].
      unfold is_continuation, is_surrogate in Ec. bool_hyps.
      destruct (utf8_decode r2) as [s' |] eqn:E; [| discriminate].
      injection H as <-. cbn [List.length] in Hlen.
      destruct (IH r2 s' ltac:(lia) E) as [He Ht].
      assert (Hsc : is_scalar c = true).
      { apply is_scalar_spec.
        match goal with Hs : _ \/ _ |- _ => destruct Hs end;
          bool_hyps; dm_lia. }
      split; [| cbn [is_text forallb]; rewrite Hsc; exact Ht].
      apply (@utf8_encode_cons _ [b0; b1; b2] s' r2 Hsc); [| assumption].
      unfold utf8_units.
      destruct (Z.ltb_spec c 0x80); [lia |].
      destruct (Z.ltb_spec c 0x800); [lia |].
      destruct (Z.ltb_spec c 0x10000); [| exfalso; dm_lia].
      cbn [map]. f_equal; [dm_lia |]. f_equal; [dm_lia |].
      f_equal. dm_lia. }
    destruct (Z.ltb_spec (int_of_byte b0) 0xF8) as [L5 | L5];
      [| discriminate].
    destruct r0 as [| b1 [| b2 [| b3 r3]]]; try discriminate.
    pose proof (int_of_byte_range b1) as R1.
    pose proof (int_of_byte_range b2) as R2.
    pose proof (int_of_byte_range b3) as R3.
    rewrite land_0x07, !land_0x3F in H.
    rewrite (@lor_shiftl_add _ 6) in H
      by (change (2 ^ 6) with 64; dm_lia).
    rewrite (@lor_shiftl_add _ 12) in H
      by (change (2 ^ 12) with 4096; change (2 ^ 6) with 64; dm_lia).
    rewrite (@lor_shiftl_add _ 18) in H
      by (change (2 ^ 18) with 262144; change (2 ^ 12) with 4096;
          change (2 ^ 6) with 64; dm_lia).
    change (2 ^ 6) with 64 in H. change (2 ^ 12) with 4096 in H.
    change (2 ^ 18) with 262144 in H.
    remember (int_of_byte b0 mod 8 * 262144
              + (int_of_byte b1 mod 64 * 4096
                 + (int_of_byte b2 mod 64 * 64 + int_of_byte b3 mod 64)))
      as c eqn:Hc.
    destruct (is_continuation (int_of_byte b1)
              && is_continuation (int_of_byte b2)
              && is_continuation (int_of_byte b3)
              && (65536 <=? c) && (c <=? 1114111)) eqn:Ec;
      [| discriminate].
    unfold is_continuation in Ec. bool_hyps.
    destruct (utf8_decode r3) as [s' |] eqn:E; [| discriminate].
    injection H as <-. cbn [List.length] in Hlen.
    destruct (IH r3 s' ltac:(lia) E) as [He Ht].
    assert (Hsc : is_scalar c = true) by (apply is_scalar_spec; lia).
    split; [| cbn [is_text forallb]; rewrite Hsc; exact Ht].
    apply (@utf8_encode_cons _ [b0; b1; b2; b3] s' r3 Hsc); [| assumption].
    unfold utf8_units.
    destruct (Z.ltb_spec c 0x80); [lia |].
    destruct (Z.ltb_spec c 0x800); [lia |].
    destruct (Z.ltb_spec c 0x10000); [lia |].
    cbn [map]. f_equal; [dm_lia |]. f_equal; [dm_lia |].
    f_equal; [dm_lia |]. f_equal. dm_lia.
Qed.

(** A surrogate anywhere in a [str] makes the codec raise. *)
Lemma utf8_encode_surrogate c s :
  is_surrogate c = true -> utf8_encode (c :: s) = Raise UnicodeEncodeError.
Proof.
  intros Hc. cbn [utf8_encode]. unfold utf8_encode_char.
  unfold is_surrogate in Hc. apply andb_true_iff in Hc.
  rewrite !Z.leb_le in Hc.
  destruct (Z.ltb_spec c 0x80); [lia |].
  destruct (Z.ltb_spec c 0x800); [lia |].
  destruct (Z.ltb_spec c 0x10000); [| lia].
  unfold is_surrogate.
  destruct (Z.leb_spec 0xD800 c); [| lia].
  destruct (Z.leb_spec c 0xDFFF); [| lia].
  reflexivity.
Qed.

(** ** Slices *)

Lemma bytes_eqb_eq a b : bytes_eqb a b = true <-> a = b.
Proof.
  unfold bytes_eqb. destruct (list_eq_dec Byte.byte_eq_dec a b); split;
    congruence.
Qed.

Lemma str_eqb_eq a b : str_eqb a b = true <-> a = b.
Proof.
  unfold str_eqb. destruct (list_eq_dec Z.eq_dec a b); split; congruence.
Qed.

(** [x[:4] + x[4:8]] is [x[:8]]. *)
Lemma slice_header (A : Type) (l : list A) :
  slice 0 4 l ++ slice 4 8 l = firstn 8 l.
Proof.
  unfold slice.
  do 8 (destruct l as [| ? l]; [reflexivity |]). reflexivity.
Qed.

Lemma slice_lengths (A : Type) (l : list A) :
  List.length (slice 0 4 l) = Nat.min 4 (List.length l) /\
  List.length (slice 4 8 l) = Nat.min 4 (List.length l - 4) /\
  List.length (slice_from 8 l) = (List.length l - 8)%nat.
Proof.
  unfold slice, slice_from.
  rewrite !length_firstn, !length_skipn. lia.
Qed.

Lemma len_app (A : Type) (l1 l2 : list A) : len (l1 ++ l2) = len l1 + len l2.
Proof. unfold len. rewrite length_app. lia. Qed.

Lemma len_nonneg (A : Type) (l : list A) : 0 <= len l.
Proof. unfold len. lia. Qed.

(** ** add_custom_section *)

(** The function is its magic check followed by the Section Builder and
    the concatenation. *)
Lemma add_custom_section_eq w name data :
  add_custom_section w name data =
  if bytes_eqb (slice 0 4 w) wasm_magic then
    record <- custom_section name data ;;
    Ok (slice 0 4 w ++ slice 4 8 w ++ record ++ slice_from 8 w)
  else Raise (ValueError "Invalid WASM file").
Proof.
  unfold add_custom_section, custom_section.
  destruct (bytes_eqb (slice 0 4 w) wasm_magic); [| reflexivity].
  cbn [negb].
  destruct (utf8_encode name) as [nb | |]; cbn [bind]; try reflexivity.
  destruct (encode_leb128 (len nb)) as [nl | |]; cbn [bind]; try reflexivity.
  destruct (py_bytes [0]) as [tag | |]; cbn [bind]; try reflexivity.
  destruct (encode_leb128 (len (nl ++ nb ++ data))) as [cl | |];
    cbn [bind]; reflexivity.
Qed.

(** The record of a name that is text. *)
Lemma custom_section_text name data :
  is_text name = true ->
  exists name_bytes name_len content_len,
    utf8_encode name = Ok name_bytes /\
    utf8_decode name_bytes = Some name /\
    encode_leb128 (len name_bytes) = Ok name_len /\
    encode_leb128 (len (name_len ++ name_bytes ++ data)) = Ok content_len /\
    custom_section name data
    = Ok ([x00] ++ content_len ++ name_len ++ name_bytes ++ data).
Proof.
  intros Hname.
  destruct (utf8_encode_text name Hname) as (nb & Hnb & Hdec).
  destruct (@encode_leb128_groups (len nb) (len_nonneg nb)) as (nl & Hnl & _).
  destruct (@encode_leb128_groups (len (nl ++ nb ++ data))
              (len_nonneg _)) as (cl & Hcl & _).
  exists nb, nl, cl. repeat split; try assumption.
  unfold custom_section. rewrite Hnb. cbn [bind]. rewrite Hnl. cbn [bind].
  change (py_bytes [0]) with (Ok [x00] : outcome bytes). cbn [bind].
  rewrite Hcl. reflexivity.
Qed.

Lemma add_custom_section_text w name data :
  slice 0 4 w = wasm_magic -> is_text name = true ->
  exists record,
    custom_section name data = Ok record /\
    add_custom_section w name data
    = Ok (slice 0 4 w ++ slice 4 8 w ++ record ++ slice_from 8 w).
Proof.
  intros Hmagic Hname.
  destruct (custom_section_text name data Hname)
    as (nb & nl & cl & _ & _ & _ & _ & Hrec).
  eexists. split; [exact Hrec |].
  rewrite add_custom_section_eq, Hrec.
  apply bytes_eqb_eq in Hmagic. rewrite Hmagic. reflexivity.
Qed.

(** What a reader finds in a record. *)
Lemma read_section_record content_len content rest :
  leb128_decode (content_len ++ content ++ rest)
  = Some (len content, content ++ rest) ->
  read_section (([x00] ++ content_len ++ content) ++ rest)
  = Some (x00, content, rest).
Proof.
  intros Hd. cbn [app]. rewrite <- app_assoc. cbn [read_section].
  rewrite Hd.
  rewrite len_app.
  destruct (Z.leb_spec (len content) (len content + len rest)) as [_ | Hlt].
  - unfold len. rewrite Nat2Z.id.
    rewrite firstn_app, Nat.sub_diag, firstn_all. cbn [firstn].
    rewrite app_nil_r.
    rewrite skipn_app, Nat.sub_diag, skipn_all. reflexivity.
  - pose proof (len_nonneg rest). lia.
Qed.

Lemma read_custom_content_record name name_bytes name_len data :
  utf8_decode name_bytes = Some name ->
  leb128_decode (name_len ++ name_bytes ++ data)
  = Some (len name_bytes, name_bytes ++ data) ->
  read_custom_content (name_len ++ name_bytes ++ data) = Some (name, data).
Proof.
  intros Hdec Hd. unfold read_custom_content. rewrite Hd.
  rewrite len_app.
  destruct (Z.leb_spec (len name_bytes) (len name_bytes + len data))
    as [_ | Hlt].
  - unfold len. rewrite Nat2Z.id.
    rewrite firstn_app, Nat.sub_diag, firstn_all. cbn [firstn].
    rewrite app_nil_r, Hdec.
    rewrite skipn_app, Nat.sub_diag, skipn_all. reflexivity.
  - pose proof (len_nonneg data). lia.
Qed.

(** With the magic in place, a name that starts with a lone surrogate makes
    the call raise the codec's error. *)
Lemma add_custom_section_surrogate_name w c name data :
  slice 0 4 w = wasm_magic -> is_surrogate c = true ->
  add_custom_section w (c :: name) data = Raise UnicodeEncodeError.
Proof.
  intros Hmagic Hc. rewrite add_custom_section_eq.
  apply bytes_eqb_eq in Hmagic. rewrite Hmagic.
  unfold custom_section. rewrite (utf8_encode_surrogate _ name Hc).
  reflexivity.
Qed.

(** ** What can be raised *)

Lemma byte_of_int_raise z e :
  byte_of_int z = Raise e -> e = ValueError "bytes must be in range(0, 256)".
Proof.
  unfold byte_of_int. destruct (z <? 0); [congruence |].
  destruct (Byte.of_N (Z.to_N z)); congruence.
Qed.

Lemma byte_of_int_returns z : byte_of_int z <> Diverge.
Proof.
  unfold byte_of_int. destruct (z <? 0); [discriminate |].
  destruct (Byte.of_N (Z.to_N z)); discriminate.
Qed.

Lemma py_bytes_raise l : forall e,
  py_bytes l = Raise e -> e = ValueError "bytes must be in range(0, 256)".
Proof.
  induction l as [| z l IH]; intros e H; cbn [py_bytes] in H;
    [discriminate |].
  destruct (byte_of_int z) as [b | e' |] eqn:Eb; cbn [bind] in H.
  - destruct (py_bytes l) as [bs | e' |]; cbn [bind] in H;
      try discriminate.
    injection H as <-. apply IH. reflexivity.
  - injection H as <-. apply (byte_of_int_raise _ Eb).
  - discriminate.
Qed.

Lemma utf8_encode_raise s : forall e,
  utf8_encode s = Raise e ->
  e = UnicodeEncodeError \/ e = ValueError "bytes must be in range(0, 256)".
Proof.
  induction s as [| c s IH]; intros e H; cbn [utf8_encode] in H;
    [discriminate |].
  destruct (utf8_encode_char c) as [ints |]; [| left; congruence].
  destruct (py_bytes ints) as [bs | e' |] eqn:Eb; cbn [bind] in H.
  - destruct (utf8_encode s) as [rest | e' |]; cbn [bind] in H;
      try discriminate.
    injection H as <-. apply IH. reflexivity.
  - injection H as <-. right. apply (py_bytes_raise _ Eb).
  - discriminate.
Qed.

(** On a length, [encode_leb128] returns. *)
Lemma encode_leb128_len (A : Type) (l : list A) :
  exists bs, encode_leb128 (len l) = Ok bs.
Proof.
  destruct (@encode_leb128_groups (len l) (len_nonneg l)) as (bs & H & _).
  exists bs. assumption.
Qed.

Lemma custom_section_raise name data e :
  custom_section name data = Raise e ->
  e = UnicodeEncodeError \/ e = ValueError "bytes must be in range(0, 256)".
Proof.
  unfold custom_section. intros H.
  destruct (utf8_encode name) as [nb | e' |] eqn:En; cbn [bind] in H.
  - destruct (encode_leb128_len nb) as (nl & Hnl).
    rewrite Hnl in H. cbn [bind] in H.
    change (py_bytes [0]) with (Ok [x00] : outcome bytes) in H.
    cbn [bind] in H.
    destruct (encode_leb128_len (nl ++ nb ++ data)) as (cl & Hcl).
    rewrite Hcl in H. discriminate.
  - injection H as <-. apply (utf8_encode_raise _ En).
  - discriminate.
Qed.

(** ** The script *)

Lemma main_run stdin_read write_file stdout_encode argv stdin w :
  argv_ok argv ->
  main stdin_read write_file stdout_encode argv stdin w =
  match manifest_data stdin_read stdin with
  | Raise e => (Raise e, w)
  | Diverge => (Diverge, w)
  | Ok manifest =>
      match files w (argv_at argv 1) with
      | None => (Raise FileNotFoundError, w)
      | Some wasm_bytes =>
          match add_custom_section wasm_bytes (argv_at argv 3) manifest with
          | Raise e => (Raise e, w)
          | Diverge => (Diverge, w)
          | Ok result =>
              write_output write_file stdout_encode
                           (argv_at argv 5) (argv_at argv 3) result w
          end
      end
  end.
Proof.
  intros (Hlen & Hs & Ho). unfold main.
  rewrite Hlen, Hs, Ho.
  replace (str_eqb (str_of_string "-s") (str_of_string "-s")) with true
    by (symmetry; apply str_eqb_eq; reflexivity).
  replace (str_eqb (str_of_string "-o") (str_of_string "-o")) with true
    by (symmetry; apply str_eqb_eq; reflexivity).
  reflexivity.
Qed.

Lemma argv_ok_dec argv :
  negb (len argv =? 6)
  || negb (str_eqb (argv_at argv 2) (str_of_string "-s"))
  || negb (str_eqb (argv_at argv 4) (str_of_string "-o")) = false
  <-> argv_ok argv.
Proof.
  unfold argv_ok.
  rewrite !orb_false_iff, !negb_false_iff, Z.eqb_eq, !str_eqb_eq. tauto.
Qed.

(** Writing to standard output touches no file. *)
Lemma stdout_write_files stdout_encode text w :
  files (snd (stdout_write stdout_encode text w)) = files w.
Proof.
  unfold stdout_write. destruct (stdout_encode text); reflexivity.
Qed.

Lemma print_files stdout_encode line w :
  files (snd (print stdout_encode line w)) = files w.
Proof.
  unfold print.
  pose proof (stdout_write_files stdout_encode line w) as H.
  destruct (stdout_write stdout_encode line w) as [[[] | e |] w1];
    cbn [snd] in *; try assumption.
  rewrite stdout_write_files. assumption.
Qed.

(** With standard output encoded as UTF-8, a line that is text is printed:
    its bytes and a newline are appended. *)
Lemma print_text line w :
  is_text line = true ->
  exists bs,
    utf8_encode line = Ok bs /\
    print utf8_encode line w
    = (Ok tt, mkWorld (files w) (stdout w ++ bs ++ [x0a])).
Proof.
  intros Hline. destruct (utf8_encode_text line Hline) as (bs & Hbs & _).
  exists bs. split; [assumption |].
  unfold print, stdout_write. rewrite Hbs.
  change (utf8_encode [10]) with (Ok [x0a] : outcome bytes).
  cbn [files stdout]. rewrite <- app_assoc. reflexivity.
Qed.

(** No text encodes to the single byte 0xFF, so whatever the text layer
    of standard input makes of that byte, the payload is not that byte. *)
Lemma utf8_encode_never_xff text : utf8_encode text <> Ok [xff].
Proof.
  destruct text as [| c s]; [discriminate |].
  cbn [utf8_encode]. unfold utf8_encode_char.
  destruct (Z.ltb_spec c 0x80) as [Hc | Hc].
  - cbn [py_bytes]. destruct (byte_of_int c) as [b | |] eqn:Eb;
      cbn [bind]; try discriminate.
    destruct (utf8_encode s) as [rest | |]; cbn [bind]; try discriminate.
    intros [= -> _]. apply byte_of_int_inv in Eb.
    change (int_of_byte xff) with 255 in Eb. lia.
  - assert (Hlen : forall ints (bs : bytes),
              py_bytes ints = Ok bs -> List.length bs = List.length ints).
    { intros ints bs Hb. apply py_bytes_inv in Hb. rewrite <- Hb.
      symmetry. apply length_map. }
    assert (Hlong : forall ints,
              (2 <= List.length ints)%nat ->
              bs <- py_bytes ints ;; rest <- utf8_encode s ;; Ok (bs ++ rest)
              <> Ok [xff]).
    { intros ints Hi.
      destruct (py_bytes ints) as [bs | |] eqn:Eb; cbn [bind];
        try discriminate.
      destruct (utf8_encode s) as [rest | |]; cbn [bind]; try discriminate.
      intros [= Heq]. apply Hlen in Eb.
      apply (f_equal (@List.length byte)) in Heq.
      rewrite length_app in Heq. cbn [List.length] in Heq. lia. }
    destruct (c <? 0x800); [apply Hlong; simpl; lia |].
    destruct (c <? 0x10000); [| apply Hlong; simpl; lia].
    destruct (is_surrogate c); [discriminate | apply Hlong; simpl; lia].
Qed.

Lemma manifest_data_never_xff (stdin_read : bytes -> outcome str) :
  manifest_data stdin_read [xff] <> Ok [xff].
Proof.
  unfold manifest_data.
  destruct (stdin_read [xff]) as [text | |]; cbn [bind]; try discriminate.
  apply utf8_encode_never_xff.
Qed.

(** * The specification's claims *)

(** ** encode_leb128 *)

(** C4. For every non-negative [n], [encode_leb128 n] returns bytes that a
    standard unsigned LEB128 decoder reads back as [n] (consuming exactly
    those bytes, whatever follows them), and the encoding is of minimal
    length: the high bit is set on every byte but the last and clear on the
    last, the last byte is non-zero whenever [n > 0], and no byte sequence
    the decoder reads as [n] is shorter. *)
Theorem encode_leb128_roundtrip_minimal (n : Z) :
  0 <= n ->
  exists bs,
    encode_leb128 n = Ok bs /\
    leb128_decode bs = Some (n, []) /\
    (forall rest, leb128_decode (bs ++ rest) = Some (n, rest)) /\
    (exists init final,
        bs = init ++ [final] /\
        Forall (fun b => Z.land (int_of_byte b) 0x80 <> 0) init /\
        Z.land (int_of_byte final) 0x80 = 0 /\
        (0 < n -> final <> x00)) /\
    (forall bs' rest,
        leb128_decode bs' = Some (n, rest) -> len bs <= len bs' - len rest).
Proof.
  intros Hn. destruct (encode_leb128_groups Hn) as (bs & Hbs & _).
  exists bs. split; [assumption |]. split; [| split; [| split]].
  - rewrite <- (app_nil_r bs) at 1.
    apply encode_leb128_decode; assumption.
  - intros rest. apply encode_leb128_decode; assumption.
  - apply (@encode_leb128_shape n bs Hn Hbs).
  - intros bs' rest Hd. apply (@encode_leb128_shortest n bs bs' rest Hn Hbs Hd).
Qed.

Lemma encode_leb128_roundtrip_minimal_witness :
  0 <= 16384 /\
  exists bs, encode_leb128 16384 = Ok bs /\ leb128_decode bs = Some (16384, []).
Proof.
  split; [lia |].
  destruct (encode_leb128_roundtrip_minimal (n := 16384) ltac:(lia))
    as (bs & Hbs & Hdec & _).
  exists bs. split; assumption.
Defined.

(** C5. [encode_leb128 0] is exactly the one byte 0x00, never the empty
    byte sequence. *)
Theorem encode_leb128_zero :
  encode_leb128 0 = Ok [x00] /\ encode_leb128 0 <> Ok [].
Proof. split; [reflexivity | discriminate]. Qed.

(** C9. For every non-negative input the loop of [encode_leb128]
    terminates: after some number [k >= 1] of passes, at most
    [leb128_fuel n], the remaining value is exactly zero, it is non-zero
    after every earlier pass, after [j] passes it is [n >> 7j] and never
    negative (no sign extension), and with any bound of at least [k] passes
    the loop returns the list built by those [k] passes. *)
Theorem encode_loop_terminates (n : Z) :
  0 <= n ->
  exists k,
    (1 <= k <= leb128_fuel n)%nat /\
    fst (Nat.iter k loop_body (n, [])) = 0 /\
    (forall j, (1 <= j < k)%nat -> fst (Nat.iter j loop_body (n, [])) <> 0) /\
    (forall j, fst (Nat.iter j loop_body (n, [])) = Z.shiftr n (7 * Z.of_nat j)
               /\ 0 <= fst (Nat.iter j loop_body (n, []))) /\
    (forall fuel, (k <= fuel)%nat ->
       encode_loop fuel (n, []) = Some (snd (Nat.iter k loop_body (n, [])))).
Proof.
  intros Hn. destruct (encode_loop_stops Hn) as (l & Hl & _).
  destruct (encode_loop_passes _ _ Hl) as (k & Hk & Hz & Hnz & _).
  exists k. split; [assumption |]. split; [assumption |].
  split; [assumption |]. split.
  - intros j. rewrite passes_value. cbn [fst]. split; [reflexivity |].
    apply Z.shiftr_nonneg. assumption.
  - intros fuel Hfuel. apply passes_encode_loop; [lia | assumption ..].
Qed.

Lemma encode_loop_terminates_witness :
  0 <= 300 /\
  exists k, fst (Nat.iter k loop_body (300, [])) = 0 /\
            encode_loop k (300, [])
            = Some (snd (Nat.iter k loop_body (300, []))).
Proof.
  split; [lia |].
  destruct (encode_loop_terminates (n := 300) ltac:(lia))
    as (k & Hk & Hz & _ & _ & Hrun).
  exists k. split; [assumption | apply Hrun; lia].
Defined.

(** ** add_custom_section *)

(** C1, as amended. For every input whose first 4 bytes are the magic,
    every name that is text and every payload, the result is the first 4
    bytes ++ the next 4 bytes ++ the Section Builder's record ++ the input
    from offset 8 on; and when the input has at least 8 bytes, bytes [0,8)
    of the output are bytes [0,8) of the input. *)
Theorem add_custom_section_splice w name data :
  slice 0 4 w = wasm_magic -> is_text name = true ->
  exists record,
    custom_section name data = Ok record /\
    add_custom_section w name data
    = Ok (slice 0 4 w ++ slice 4 8 w ++ record ++ slice_from 8 w) /\
    ((8 <= List.length w)%nat ->
     firstn 8 (slice 0 4 w ++ slice 4 8 w ++ record ++ slice_from 8 w)
     = firstn 8 w).
Proof.
  intros Hmagic Hname.
  destruct (@add_custom_section_text w name data Hmagic Hname)
    as (record & Hrec & Hout).
  exists record. split; [assumption |]. split; [assumption |].
  intros Hlen. rewrite app_assoc, slice_header.
  rewrite firstn_app, length_firstn.
  replace (8 - Nat.min 8 (List.length w))%nat with 0%nat by lia.
  rewrite firstn_O, app_nil_r, firstn_firstn. reflexivity.
Qed.

Lemma add_custom_section_splice_witness :
  exists record,
    add_custom_section [x00; x61; x73; x6d; x01; x00; x00; x00; x0a; x0b]
                       (str_of_string "hello") [x42]
    = Ok ([x00; x61; x73; x6d] ++ [x01; x00; x00; x00] ++ record
          ++ [x0a; x0b]).
Proof.
  destruct (@add_custom_section_splice
              [x00; x61; x73; x6d; x01; x00; x00; x00; x0a; x0b]
              (str_of_string "hello") [x42] eq_refl eq_refl)
    as (record & _ & Hout & _).
  exists record. exact Hout.
Defined.

(** C1 as stated fails on an input that holds the magic and nothing else:
    the call returns, and bytes [0,8) of its output are the magic followed
    by the start of the new section, not bytes [0,8) of the input. *)
Lemma header_not_preserved_short_input :
  slice 0 4 [x00; x61; x73; x6d] = wasm_magic /\
  add_custom_section [x00; x61; x73; x6d] (str_of_string "") []
  = Ok [x00; x61; x73; x6d; x00; x01; x00] /\
  firstn 8 [x00; x61; x73; x6d; x00; x01; x00]
  <> firstn 8 [x00; x61; x73; x6d].
Proof.
  split; [reflexivity |]. split; [vm_compute; reflexivity | discriminate].
Qed.

(** C2, as amended. For every input whose first 4 bytes are the magic,
    every name that is text and every payload, the output from offset
    8 + len(record) on is the input from offset 8 on; the output is bytes
    [0,8) of the input, then the record, then the rest of the input; and
    when the input has at least 8 bytes the record sits at offset 8,
    immediately after the header, so that a reader finds the new section
    first and every earlier section after it. *)
Theorem add_custom_section_tail_preserved w name data :
  slice 0 4 w = wasm_magic -> is_text name = true ->
  exists record out,
    custom_section name data = Ok record /\
    add_custom_section w name data = Ok out /\
    skipn (8 + List.length record) out = skipn 8 w /\
    out = firstn 8 w ++ record ++ skipn 8 w /\
    ((8 <= List.length w)%nat ->
     skipn 8 out = record ++ skipn 8 w /\
     exists content,
       read_section (skipn 8 out) = Some (x00, content, skipn 8 w)).
Proof.
  intros Hmagic Hname.
  destruct (custom_section_text name data Hname)
    as (nb & nl & cl & _ & _ & _ & Hcl & Hrec).
  destruct (@add_custom_section_text w name data Hmagic Hname)
    as (record & Hrec' & Hout).
  assert (Hrecord : record = [x00] ++ cl ++ (nl ++ nb ++ data))
    by congruence.
  rewrite app_assoc, slice_header in Hout. unfold slice_from in Hout.
  exists record, (firstn 8 w ++ record ++ skipn 8 w).
  split; [exact Hrec' |]. split; [exact Hout |].
  assert (Hskip : (8 <= List.length w)%nat ->
            skipn 8 (firstn 8 w ++ record ++ skipn 8 w)
            = record ++ skipn 8 w).
  { intros Hlen. rewrite skipn_app, length_firstn.
    replace (8 - Nat.min 8 (List.length w))%nat with 0%nat by lia.
    rewrite skipn_all2 by (rewrite length_firstn; lia). reflexivity. }
  split; [| split; [reflexivity |]].
  - destruct (Nat.le_gt_cases 8 (List.length w)) as [Hlen | Hlen].
    + rewrite Nat.add_comm, <- skipn_skipn, (Hskip Hlen).
      rewrite skipn_app, Nat.sub_diag, skipn_all. reflexivity.
    + rewrite (skipn_all2 (n := 8) w) by lia.
      apply skipn_all2. rewrite !length_app, length_firstn.
      cbn [List.length]. lia.
  - intros Hlen. rewrite (Hskip Hlen). split; [reflexivity |].
    exists (nl ++ nb ++ data). rewrite Hrecord.
    apply read_section_record.
    apply encode_leb128_decode; [apply len_nonneg | assumption].
Qed.

Lemma add_custom_section_tail_preserved_witness :
  exists record out : bytes,
    add_custom_section [x00; x61; x73; x6d; x01; x00; x00; x00; x0a; x0b]
                       (str_of_string "hello") [x42] = Ok out /\
    skipn (8 + List.length record) out = [x0a; x0b].
Proof.
  destruct (@add_custom_section_tail_preserved
              [x00; x61; x73; x6d; x01; x00; x00; x00; x0a; x0b]
              (str_of_string "hello") [x42] eq_refl eq_refl)
    as (record & out & _ & Hout & Htail & _).
  exists record, out. split; [exact Hout | exact Htail].
Defined.

(** C2 as stated fails on an input that holds the magic and nothing else:
    there is no 8-byte header to follow, the record is put at offset 4, and
    from offset 8 on the output holds neither the record nor any section a
    reader could find. *)
Lemma section_not_after_header_short_input :
  slice 0 4 [x00; x61; x73; x6d] = wasm_magic /\
  custom_section (str_of_string "") [] = Ok [x00; x01; x00] /\
  add_custom_section [x00; x61; x73; x6d] (str_of_string "") []
  = Ok [x00; x61; x73; x6d; x00; x01; x00] /\
  skipn 4 [x00; x61; x73; x6d; x00; x01; x00] = [x00; x01; x00] /\
  skipn 8 [x00; x61; x73; x6d; x00; x01; x00]
  <> [x00; x01; x00] ++ skipn 8 [x00; x61; x73; x6d] /\
  read_section (skipn 8 [x00; x61; x73; x6d; x00; x01; x00]) = None.
Proof.
  split; [reflexivity |]. split; [vm_compute; reflexivity |].
  split; [vm_compute; reflexivity |]. split; [reflexivity |].
  split; [discriminate | reflexivity].
Qed.

(** C3, as amended. On the container 00 61 73 6D 01 00 00 00, the name
    "hello" and the payload 42 6F 6E 6A 6F 75 72 the result is exactly
    00 61 73 6D 01 00 00 00 ++ 00 ++ 0D ++ 05 ++ 68 65 6C 6C 6F
    ++ 42 6F 6E 6A 6F 75 72, which is 23 bytes long (8 + 1 + 1 + 1 + 5 + 7). *)
Theorem add_custom_section_scenario :
  add_custom_section [x00; x61; x73; x6d; x01; x00; x00; x00]
                     (str_of_string "hello")
                     [x42; x6f; x6e; x6a; x6f; x75; x72]
  = Ok ([x00; x61; x73; x6d; x01; x00; x00; x00] ++ [x00] ++ [x0d] ++ [x05]
        ++ [x68; x65; x6c; x6c; x6f] ++ [x42; x6f; x6e; x6a; x6f; x75; x72])
  /\ List.length ([x00; x61; x73; x6d; x01; x00; x00; x00] ++ [x00] ++ [x0d]
                  ++ [x05] ++ [x68; x65; x6c; x6c; x6f]
                  ++ [x42; x6f; x6e; x6a; x6f; x75; x72]) = 23%nat.
Proof. split; [vm_compute; reflexivity | reflexivity]. Qed.

(** C3 as stated gives the right bytes and the wrong count: the result of
    the scenario is not 22 bytes long. *)
Lemma scenario_length_not_22 :
  exists out,
    add_custom_section [x00; x61; x73; x6d; x01; x00; x00; x00]
                       (str_of_string "hello")
                       [x42; x6f; x6e; x6a; x6f; x75; x72] = Ok out /\
    List.length out <> 22%nat.
Proof.
  eexists. split; [vm_compute; reflexivity | discriminate].
Qed.

(** C6. [add_custom_section] fails with the error of an invalid format,
    [ValueError("Invalid WASM file")], if and only if the first 4 bytes of
    the input are not the magic; then it returns no bytes, and the script
    that called it stops with that error having written no file and printed
    nothing, whatever the operating system would have made of a write. *)
Theorem add_custom_section_invalid_format w name data :
  (add_custom_section w name data = Raise (ValueError "Invalid WASM file")
   <-> slice 0 4 w <> wasm_magic) /\
  (slice 0 4 w <> wasm_magic ->
   (forall out, add_custom_section w name data <> Ok out) /\
   forall stdin_read write_file stdout_encode argv stdin world,
     argv_ok argv ->
     manifest_data stdin_read stdin = Ok data ->
     files world (argv_at argv 1) = Some w ->
     argv_at argv 3 = name ->
     main stdin_read write_file stdout_encode argv stdin world
     = (Raise (ValueError "Invalid WASM file"), world)).
Proof.
  assert (Hbad : slice 0 4 w <> wasm_magic ->
                 add_custom_section w name data
                 = Raise (ValueError "Invalid WASM file")).
  { intros Hm. rewrite add_custom_section_eq.
    destruct (bytes_eqb (slice 0 4 w) wasm_magic) eqn:E; [| reflexivity].
    apply bytes_eqb_eq in E. contradiction. }
  split; [split |].
  - intros H Hm. rewrite add_custom_section_eq in H.
    apply bytes_eqb_eq in Hm. rewrite Hm in H.
    destruct (custom_section name data) as [record | e |] eqn:Ec;
      cbn [bind] in H; try discriminate.
    injection H as ->.
    destruct (custom_section_raise _ _ Ec); discriminate.
  - exact Hbad.
  - intros Hm. split.
    + intros out. rewrite (Hbad Hm). discriminate.
    + intros stdin_read write_file stdout_encode argv stdin world
        Hargv Hmanifest Hfile Hname.
      rewrite (main_run _ _ _ _ _ Hargv), Hmanifest, Hfile, Hname,
        (Hbad Hm).
      reflexivity.
Qed.

Lemma add_custom_section_invalid_format_witness :
  add_custom_section [x7f; x45; x4c; x46] (str_of_string "hello") [x42]
  = Raise (ValueError "Invalid WASM file").
Proof.
  apply (proj1 (@add_custom_section_invalid_format
                  [x7f; x45; x4c; x46] (str_of_string "hello") [x42])).
  discriminate.
Defined.

(** C7. For every name that is text and every payload, the Section
    Builder's record is byte 0 ++ Varint(len(section_content)) ++
    section_content with section_content = Varint(len(name_bytes)) ++
    name_bytes ++ payload and name_bytes the UTF-8 encoding of the name; it
    is the record [add_custom_section] inserts; the outer length prefix
    decodes to the exact byte count of the content after it; and a reader
    of the record gets back tag 0, the name and the payload, whatever
    follows the record. *)
Theorem custom_section_record name data :
  is_text name = true ->
  exists name_bytes name_len content_len,
    utf8_encode name = Ok name_bytes /\
    encode_leb128 (len name_bytes) = Ok name_len /\
    encode_leb128 (len (name_len ++ name_bytes ++ data)) = Ok content_len /\
    custom_section name data
    = Ok ([x00] ++ content_len ++ (name_len ++ name_bytes ++ data)) /\
    (forall w, slice 0 4 w = wasm_magic ->
       add_custom_section w name data
       = Ok (slice 0 4 w ++ slice 4 8 w
             ++ ([x00] ++ content_len ++ (name_len ++ name_bytes ++ data))
             ++ slice_from 8 w)) /\
    (forall rest,
       leb128_decode (content_len ++ (name_len ++ name_bytes ++ data) ++ rest)
       = Some (len (name_len ++ name_bytes ++ data),
               (name_len ++ name_bytes ++ data) ++ rest)) /\
    (forall rest,
       read_section
         (([x00] ++ content_len ++ (name_len ++ name_bytes ++ data)) ++ rest)
       = Some (x00, name_len ++ name_bytes ++ data, rest)) /\
    read_custom_content (name_len ++ name_bytes ++ data) = Some (name, data).
Proof.
  intros Hname.
  destruct (custom_section_text name data Hname)
    as (nb & nl & cl & Hnb & Hdec & Hnl & Hcl & Hrec).
  exists nb, nl, cl.
  assert (Hprefix : forall rest,
            leb128_decode (cl ++ (nl ++ nb ++ data) ++ rest)
            = Some (len (nl ++ nb ++ data), (nl ++ nb ++ data) ++ rest)).
  { intros rest.
    apply encode_leb128_decode; [apply len_nonneg | assumption]. }
  repeat (split; [assumption |]).
  split; [| split; [exact Hprefix | split]].
  - intros w Hmagic. rewrite add_custom_section_eq, Hrec.
    apply bytes_eqb_eq in Hmagic. rewrite Hmagic. reflexivity.
  - intros rest. apply read_section_record. apply Hprefix.
  - apply read_custom_content_record; [assumption |].
    apply encode_leb128_decode; [apply len_nonneg | assumption].
Qed.

Lemma custom_section_record_witness :
  exists content,
    read_section [x00; x0d; x05; x68; x65; x6c; x6c; x6f;
                  x42; x6f; x6e; x6a; x6f; x75; x72; x01; x02]
    = Some (x00, content, [x01; x02]) /\
    read_custom_content content
    = Some (str_of_string "hello", [x42; x6f; x6e; x6a; x6f; x75; x72]).
Proof.
  destruct (@custom_section_record (str_of_string "hello")
              [x42; x6f; x6e; x6a; x6f; x75; x72] eq_refl)
    as (nb & nl & cl & Hnb & Hnl & Hcl & _ & _ & _ & Hread & Hcontent).
  vm_compute in Hnb. injection Hnb as <-.
  vm_compute in Hnl. injection Hnl as <-.
  vm_compute in Hcl. injection Hcl as <-.
  eexists. split; [exact (Hread [x01; x02]) | exact Hcontent].
Defined.

(** C10. Every input whose first 4 bytes are the magic is accepted, with
    a name that is text, however short the input is: the call returns the
    concatenation of the three slices and the record, the slices
    [4:8] and [8:] hold what bytes there are (at most 4, and the rest), and
    on an input of fewer than 8 bytes the copied version field is shorter
    than 4 bytes and the output is the input followed by the record. *)
Theorem add_custom_section_accepts_short w name data :
  slice 0 4 w = wasm_magic -> is_text name = true ->
  exists record out,
    custom_section name data = Ok record /\
    add_custom_section w name data = Ok out /\
    out = slice 0 4 w ++ slice 4 8 w ++ record ++ slice_from 8 w /\
    List.length (slice 4 8 w) = Nat.min 4 (List.length w - 4) /\
    List.length (slice_from 8 w) = (List.length w - 8)%nat /\
    ((List.length w < 8)%nat ->
     (List.length (slice 4 8 w) < 4)%nat /\ out = w ++ record).
Proof.
  intros Hmagic Hname.
  destruct (@add_custom_section_text w name data Hmagic Hname)
    as (record & Hrec & Hout).
  destruct (slice_lengths w) as (_ & Hv & Ht).
  exists record, (slice 0 4 w ++ slice 4 8 w ++ record ++ slice_from 8 w).
  repeat (split; [assumption || reflexivity |]).
  intros Hlen. split; [lia |].
  rewrite app_assoc, slice_header. unfold slice_from.
  rewrite (skipn_all2 (n := 8) w) by lia.
  rewrite firstn_all2 by lia. rewrite app_nil_r. reflexivity.
Qed.

Lemma add_custom_section_accepts_short_witness :
  exists record,
    add_custom_section [x00; x61; x73; x6d] (str_of_string "hello") [x42]
    = Ok ([x00; x61; x73; x6d] ++ record).
Proof.
  destruct (@add_custom_section_accepts_short
              [x00; x61; x73; x6d] (str_of_string "hello") [x42]
              eq_refl eq_refl)
    as (record & out & _ & Hout & _ & _ & _ & Hshort).
  exists record. rewrite Hout. f_equal. apply Hshort. simpl. lia.
Defined.

(** ** The payload *)

(** C8, as amended. The payload handed to [add_custom_section] is the
    UTF-8 encoding of the text that [sys.stdin.read()] decodes from
    standard input. With standard input decoded as strict UTF-8, every byte
    sequence that is well-formed UTF-8 comes out as the payload unchanged,
    and the script calls [add_custom_section] on exactly those bytes. *)
Theorem manifest_data_wellformed_utf8 stdin text :
  utf8_decode stdin = Some text ->
  utf8_stdin_read stdin = Ok text /\
  manifest_data utf8_stdin_read stdin = utf8_encode text /\
  manifest_data utf8_stdin_read stdin = Ok stdin /\
  forall write_file stdout_encode argv world wasm,
    argv_ok argv -> files world (argv_at argv 1) = Some wasm ->
    main utf8_stdin_read write_file stdout_encode argv stdin world =
    match add_custom_section wasm (argv_at argv 3) stdin with
    | Raise e => (Raise e, world)
    | Diverge => (Diverge, world)
    | Ok result =>
        write_output write_file stdout_encode
                     (argv_at argv 5) (argv_at argv 3) result world
    end.
Proof.
  intros Hdec.
  destruct (@utf8_decode_encode (List.length stdin) stdin text
              (Nat.le_refl _) Hdec) as [Henc _].
  assert (Hread : utf8_stdin_read stdin = Ok text)
    by (unfold utf8_stdin_read; rewrite Hdec; reflexivity).
  assert (Hman : manifest_data utf8_stdin_read stdin = utf8_encode text)
    by (unfold manifest_data; rewrite Hread; reflexivity).
  split; [assumption |]. split; [assumption |].
  split; [rewrite Hman; assumption |].
  intros write_file stdout_encode argv world wasm Hargv Hfile.
  rewrite (main_run _ _ _ _ _ Hargv), Hman, Henc, Hfile. reflexivity.
Qed.

Lemma manifest_data_wellformed_utf8_witness :
  manifest_data utf8_stdin_read [x42; xc3; xa9; xe2; x82; xac; xf0; x9f; x98; x80]
  = Ok [x42; xc3; xa9; xe2; x82; xac; xf0; x9f; x98; x80].
Proof.
  apply (@manifest_data_wellformed_utf8
           [x42; xc3; xa9; xe2; x82; xac; xf0; x9f; x98; x80]
           [0x42; 0xE9; 0x20AC; 0x1F600] eq_refl).
Defined.

(** C8 as stated fails on the single byte 0xFF: read through the text layer
    of standard input it is not text, the read raises, and no payload is
    handed on. *)
Lemma manifest_data_not_raw_bytes :
  manifest_data utf8_stdin_read [xff] = Raise UnicodeDecodeError /\
  manifest_data utf8_stdin_read [xff] <> Ok [xff].
Proof. split; [reflexivity | discriminate]. Qed.

(** * Further properties of the code *)

(** ** encode_leb128 beyond the claims *)

Lemma groups_nonempty v l : leb128_groups v l -> (1 <= List.length l)%nat.
Proof. destruct 1; simpl; lia. Qed.

(** Group [i] of an encoding holds bits [7i .. 7i+6] of the value, with the
    continuation bit unless it is the last. *)
Lemma groups_nth v l :
  leb128_groups v l ->
  forall i, (i < List.length l)%nat ->
    nth i l 0 =
    Z.lor (Z.land (Z.shiftr v (7 * Z.of_nat i)) 0x7F)
          (if (S i <? List.length l)%nat then 0x80 else 0).
Proof.
  induction 1 as [v Hv | v l Hv Hg IH]; intros i Hi.
  - destruct i as [| i]; [| simpl in Hi; lia].
    cbn [nth List.length Nat.ltb Nat.leb]. rewrite Z.shiftr_0_r, land_0x7F.
    rewrite Z.lor_0_r, Z.mod_small by lia. reflexivity.
  - pose proof (groups_nonempty Hg) as Hne.
    destruct i as [| i].
    + cbn [nth]. rewrite Z.shiftr_0_r, land_0x7F.
      replace (1 <? List.length (_ :: l))%nat with true
        by (symmetry; apply Nat.ltb_lt; simpl; lia).
      rewrite lor_0x80 by (apply Z.mod_pos_bound; lia). reflexivity.
    + cbn [nth List.length] in *. rewrite (IH i) by lia.
      rewrite <- shiftr_7, Z.shiftr_shiftr by lia.
      replace (7 + 7 * Z.of_nat i) with (7 * Z.of_nat (S i)) by lia.
      replace (S (S i) <? S (List.length l))%nat
        with (S i <? List.length l)%nat; [reflexivity |].
      destruct (Nat.ltb_spec (S i) (List.length l));
        destruct (Nat.ltb_spec (S (S i)) (S (List.length l)));
        reflexivity || lia.
Qed.

(** X1. On a negative value the loop never stops: after any number of
    passes the remaining value is still negative, no bound on the passes
    is enough, and the call does not return. *)
Theorem encode_leb128_negative_never_returns n :
  n < 0 ->
  (forall k, fst (Nat.iter k loop_body (n, [])) < 0) /\
  (forall fuel acc, encode_loop fuel (n, acc) = None) /\
  encode_leb128 n = Diverge.
Proof.
  intros Hn. split; [| split].
  - intros k. rewrite passes_value. cbn [fst].
    apply Z.shiftr_neg. assumption.
  - intros fuel acc. apply encode_loop_negative. assumption.
  - apply encode_leb128_negative. assumption.
Qed.

Lemma encode_leb128_negative_never_returns_witness :
  encode_leb128 (-1) = Diverge.
Proof.
  apply (@encode_leb128_negative_never_returns (-1)). lia.
Defined.

(** X2. The encoding of [n >= 0] has at least one byte, and at most [k]
    bytes exactly when [n < 2^(7k)]; so a value below [2^64] takes at most
    10 bytes. *)
Theorem encode_leb128_length n k bs :
  0 <= n -> 1 <= k -> encode_leb128 n = Ok bs ->
  1 <= len bs /\
  (len bs <= k <-> n < 2 ^ (7 * k)) /\
  (n < 2 ^ 64 -> len bs <= 10).
Proof.
  intros Hn Hk H. destruct (encode_leb128_groups Hn) as (bs' & H' & Hg).
  rewrite H in H'. injection H' as <-.
  pose proof (groups_nonempty Hg) as Hne.
  destruct (groups_length Hg) as [Hup Hlow].
  assert (Hlen : len (map int_of_byte bs) = len bs)
    by (unfold len; rewrite length_map; reflexivity).
  rewrite length_map in Hne. rewrite Hlen in Hup, Hlow.
  assert (H1 : 1 <= len bs) by (unfold len; lia).
  assert (Hiff : forall j, 1 <= j -> (len bs <= j <-> n < 2 ^ (7 * j))).
  { intros j Hj. split.
    - intros Hle. apply Z.lt_le_trans with (2 ^ (7 * len bs));
        [assumption | apply Z.pow_le_mono_r; lia].
    - intros Hlt. destruct (Z.le_gt_cases (len bs) 1) as [| Hgt]; [lia |].
      specialize (Hlow Hgt).
      assert (Hp : 2 ^ (7 * (len bs - 1)) < 2 ^ (7 * j)) by lia.
      apply Z.pow_lt_mono_r_iff in Hp; lia. }
  split; [assumption |]. split; [apply Hiff; assumption |].
  intros H64. apply Hiff; [lia |].
  apply Z.lt_le_trans with (2 ^ 64); [assumption |].
  apply Z.pow_le_mono_r; lia.
Qed.

Lemma encode_leb128_length_witness :
  len [xac; x02] <= 2 <-> 300 < 2 ^ (7 * 2).
Proof.
  apply (@encode_leb128_length 300 2 [xac; x02]); [lia | lia | reflexivity].
Defined.

(** X3. Byte [i] of the encoding of [n >= 0] is bits [7i .. 7i+6] of [n],
    with the high bit set exactly when it is not the last byte. *)
Theorem encode_leb128_byte n bs i :
  0 <= n -> encode_leb128 n = Ok bs -> (i < List.length bs)%nat ->
  int_of_byte (nth i bs x00) =
  Z.lor (Z.land (Z.shiftr n (7 * Z.of_nat i)) 0x7F)
        (if (S i <? List.length bs)%nat then 0x80 else 0).
Proof.
  intros Hn H Hi. destruct (encode_leb128_groups Hn) as (bs' & H' & Hg).
  rewrite H in H'. injection H' as <-.
  pose proof (@groups_nth _ _ Hg i) as Hnth.
  rewrite length_map in Hnth. rewrite <- (Hnth Hi).
  change 0 with (int_of_byte x00) at 1. symmetry. apply map_nth.
Qed.

Lemma encode_leb128_byte_witness :
  int_of_byte (nth 0 [xac; x02] x00) =
  Z.lor (Z.land (Z.shiftr 300 (7 * Z.of_nat 0)) 0x7F)
        (if (1 <? List.length [xac; x02])%nat then 0x80 else 0).
Proof.
  apply (@encode_leb128_byte 300 [xac; x02] 0); [lia | reflexivity |].
  simpl. lia.
Defined.

(** X4. Encodings are prefix-free: if the encoding of [n] starts the
    encoding of [m], then [n = m] and nothing follows. In particular two
    non-negative values with the same encoding are equal. *)
Theorem encode_leb128_prefix_free n m bs rest :
  0 <= n -> 0 <= m ->
  encode_leb128 n = Ok bs -> encode_leb128 m = Ok (bs ++ rest) ->
  n = m /\ rest = [].
Proof.
  intros Hn Hm Hbs Hms.
  pose proof (@encode_leb128_decode n bs rest Hn Hbs) as D1.
  pose proof (@encode_leb128_decode m (bs ++ rest) [] Hm Hms) as D2.
  rewrite app_nil_r, D1 in D2. injection D2 as -> ->.
  split; reflexivity.
Qed.

Lemma encode_leb128_prefix_free_witness :
  300 = 300 /\ @nil byte = [].
Proof.
  apply (@encode_leb128_prefix_free 300 300 [xac; x02] []);
    [lia | lia | reflexivity | reflexivity].
Defined.

(** X5. [encode_leb128] never raises: every int it appends is in
    [range(256)], so [bytes(result)] cannot fail; the call returns bytes
    or, on a negative value, does not return. *)
Theorem encode_leb128_never_raises n e : encode_leb128 n <> Raise e.
Proof.
  destruct (Z.lt_ge_cases n 0) as [Hn | Hn].
  - rewrite encode_leb128_negative by assumption. discriminate.
  - destruct (encode_leb128_groups Hn) as (bs & H & _).
    rewrite H. discriminate.
Qed.

(** ** add_custom_section beyond the claims *)

Lemma py_bytes_returns l : py_bytes l <> Diverge.
Proof.
  induction l as [| z l IH]; cbn [py_bytes]; [discriminate |].
  destruct (byte_of_int z) as [b | e |] eqn:Eb; cbn [bind];
    [| discriminate | exact (fun _ => byte_of_int_returns z Eb)].
  destruct (py_bytes l) as [bs | e |]; cbn [bind];
    [discriminate | discriminate | exact IH].
Qed.

Lemma utf8_encode_returns s : utf8_encode s <> Diverge.
Proof.
  induction s as [| c s IH]; cbn [utf8_encode]; [discriminate |].
  destruct (utf8_encode_char c) as [ints |]; [| discriminate].
  destruct (py_bytes ints) as [bs | e |] eqn:Eb; cbn [bind];
    [| discriminate | exact (fun _ => py_bytes_returns ints Eb)].
  destruct (utf8_encode s) as [rest | e |]; cbn [bind];
    [discriminate | discriminate | exact IH].
Qed.

(** The parts of a record that was built. *)
Lemma custom_section_inv name data record :
  custom_section name data = Ok record ->
  exists name_bytes name_len content_len,
    utf8_encode name = Ok name_bytes /\
    encode_leb128 (len name_bytes) = Ok name_len /\
    encode_leb128 (len (name_len ++ name_bytes ++ data)) = Ok content_len /\
    record = [x00] ++ content_len ++ name_len ++ name_bytes ++ data.
Proof.
  unfold custom_section. intros H.
  destruct (utf8_encode name) as [nb | |] eqn:Hnb; cbn [bind] in H;
    try discriminate.
  destruct (encode_leb128 (len nb)) as [nl | |] eqn:Hnl; cbn [bind] in H;
    try discriminate.
  change (py_bytes [0]) with (Ok [x00] : outcome bytes) in H.
  cbn [bind] in H.
  destruct (encode_leb128 (len (nl ++ nb ++ data))) as [cl | |] eqn:Hcl;
    cbn [bind] in H; try discriminate.
  injection H as <-. exists nb, nl, cl.
  split; [reflexivity |]. split; [assumption |].
  split; [assumption | reflexivity].
Qed.

Lemma custom_section_returns name data : custom_section name data <> Diverge.
Proof.
  unfold custom_section.
  destruct (utf8_encode name) as [nb | e |] eqn:En; cbn [bind];
    [| discriminate | exact (fun _ => utf8_encode_returns name En)].
  destruct (encode_leb128_len nb) as (nl & ->). cbn [bind].
  change (py_bytes [0]) with (Ok [x00] : outcome bytes). cbn [bind].
  destruct (encode_leb128_len (nl ++ nb ++ data)) as (cl & ->).
  discriminate.
Qed.

(** A [str] without surrogates is text; one with a surrogate cannot be
    encoded. *)
Lemma is_str_text s :
  is_str s = true -> existsb is_surrogate s = false -> is_text s = true.
Proof.
  induction s as [| c s IH]; intros Hs Hn; [reflexivity |].
  cbn [is_str forallb] in Hs. cbn [existsb] in Hn.
  apply andb_true_iff in Hs. destruct Hs as [Hc Hs].
  apply orb_false_iff in Hn. destruct Hn as [Hnc Hn].
  cbn [is_text forallb]. unfold is_scalar. fold (is_codepoint c).
  rewrite Hc, Hnc. cbn [negb andb]. apply IH; assumption.
Qed.

Lemma utf8_encode_str_surrogate s :
  is_str s = true -> existsb is_surrogate s = true ->
  utf8_encode s = Raise UnicodeEncodeError.
Proof.
  induction s as [| c s IH]; intros Hs Hn; [discriminate |].
  cbn [is_str forallb] in Hs. cbn [existsb] in Hn.
  apply andb_true_iff in Hs. destruct Hs as [Hc Hs].
  destruct (is_surrogate c) eqn:Ec.
  - apply utf8_encode_surrogate. assumption.
  - cbn [orb] in Hn.
    assert (Hsc : is_scalar c = true).
    { unfold is_scalar. fold (is_codepoint c). rewrite Hc, Ec. reflexivity. }
    cbn [utf8_encode]. rewrite (utf8_encode_char_units c Hsc).
    destruct (py_bytes_ok (utf8_units_range c Hsc)) as (bs & Hbs & _).
    rewrite Hbs, (IH Hs Hn). reflexivity.
Qed.

Lemma splice_skipn (A : Type) (w record : list A) :
  skipn (8 + List.length record) (firstn 8 w ++ record ++ skipn 8 w)
  = skipn 8 w.
Proof.
  destruct (Nat.le_gt_cases 8 (List.length w)) as [Hlen | Hlen].
  - rewrite skipn_app, length_firstn.
    replace (8 + List.length record - Nat.min 8 (List.length w))%nat
      with (List.length record) by lia.
    rewrite (skipn_all2 (firstn 8 w))
      by (rewrite length_firstn; lia).
    rewrite skipn_app, Nat.sub_diag, skipn_all. reflexivity.
  - rewrite (skipn_all2 (n := 8) w) by lia.
    apply skipn_all2. rewrite !length_app, length_firstn.
    cbn [List.length]. lia.
Qed.

Lemma add_custom_section_ok_inv w name data out :
  add_custom_section w name data = Ok out ->
  slice 0 4 w = wasm_magic /\
  exists record,
    custom_section name data = Ok record /\
    out = firstn 8 w ++ record ++ skipn 8 w.
Proof.
  rewrite add_custom_section_eq.
  destruct (bytes_eqb (slice 0 4 w) wasm_magic) eqn:E; [| discriminate].
  apply bytes_eqb_eq in E.
  destruct (custom_section name data) as [record | |]; cbn [bind];
    try discriminate.
  intros [= <-]. split; [assumption |]. exists record.
  split; [reflexivity |].
  rewrite app_assoc, slice_header. reflexivity.
Qed.

(** X6. What a call can do, for every container, [str] and payload: it
    raises [ValueError("Invalid WASM file")] when the first 4 bytes are not
    the magic, whatever the name; otherwise it raises [UnicodeEncodeError]
    when the name holds a surrogate, and returns bytes when it holds none;
    it never fails to terminate. *)
Theorem add_custom_section_outcome w name data :
  is_str name = true ->
  (slice 0 4 w <> wasm_magic ->
   add_custom_section w name data = Raise (ValueError "Invalid WASM file")) /\
  (slice 0 4 w = wasm_magic -> existsb is_surrogate name = true ->
   add_custom_section w name data = Raise UnicodeEncodeError) /\
  (slice 0 4 w = wasm_magic -> existsb is_surrogate name = false ->
   exists out, add_custom_section w name data = Ok out) /\
  add_custom_section w name data <> Diverge.
Proof.
  intros Hstr. rewrite add_custom_section_eq.
  split; [| split; [| split]].
  - intros Hm. destruct (bytes_eqb (slice 0 4 w) wasm_magic) eqn:E;
      [| reflexivity].
    apply bytes_eqb_eq in E. contradiction.
  - intros Hm Hs. apply bytes_eqb_eq in Hm. rewrite Hm.
    unfold custom_section.
    rewrite (utf8_encode_str_surrogate name Hstr Hs). reflexivity.
  - intros Hm Hs. apply bytes_eqb_eq in Hm. rewrite Hm.
    destruct (custom_section_text name data (is_str_text name Hstr Hs))
      as (nb & nl & cl & _ & _ & _ & _ & Hrec).
    rewrite Hrec. cbn [bind]. eexists. reflexivity.
  - destruct (bytes_eqb (slice 0 4 w) wasm_magic); [| discriminate].
    destruct (custom_section name data) as [record | e |] eqn:Ec;
      cbn [bind]; [discriminate | discriminate |].
    exact (fun _ => custom_section_returns name data Ec).
Qed.

Lemma add_custom_section_outcome_witness :
  add_custom_section [x00; x61; x73; x6d; x01; x00; x00; x00]
                     [0x68; 0xD800; 0x69] [x42]
  = Raise UnicodeEncodeError.
Proof.
  apply (@add_custom_section_outcome
           [x00; x61; x73; x6d; x01; x00; x00; x00]
           [0x68; 0xD800; 0x69] [x42] eq_refl); reflexivity.
Defined.

(** X7. A call that returns adds exactly the record: the output is as long
    as the input plus the record, and the record is the payload and the
    encoded name plus at least 3 bytes (tag and two length prefixes). *)
Theorem add_custom_section_length w name data out :
  add_custom_section w name data = Ok out ->
  exists record name_bytes,
    custom_section name data = Ok record /\
    utf8_encode name = Ok name_bytes /\
    List.length out = (List.length w + List.length record)%nat /\
    (3 + List.length name_bytes + List.length data
     <= List.length record)%nat.
Proof.
  intros H. destruct (add_custom_section_ok_inv _ _ _ H)
    as (_ & record & Hrec & ->).
  destruct (custom_section_inv _ _ Hrec) as (nb & nl & cl & Hnb & Hnl & Hcl & ->).
  exists ([x00] ++ cl ++ nl ++ nb ++ data), nb.
  split; [assumption |]. split; [assumption |]. split.
  - rewrite (app_assoc (firstn 8 w)), (length_app (firstn 8 w ++ _)).
    rewrite length_app, Nat.add_shuffle0, <- length_app, firstn_skipn.
    reflexivity.
  - destruct (@encode_leb128_length _ 1 nl (len_nonneg _) ltac:(lia) Hnl)
      as (Hl1 & _).
    destruct (@encode_leb128_length _ 1 cl (len_nonneg _) ltac:(lia) Hcl)
      as (Hl2 & _).
    unfold len in Hl1, Hl2. rewrite !length_app. cbn [List.length]. lia.
Qed.

Lemma add_custom_section_length_witness :
  exists record : bytes,
    List.length [x00; x61; x73; x6d; x00; x01; x00]
    = (List.length [x00; x61; x73; x6d] + List.length record)%nat.
Proof.
  destruct (@add_custom_section_length [x00; x61; x73; x6d] [] []
              [x00; x61; x73; x6d; x00; x01; x00] eq_refl)
    as (record & _ & _ & _ & Hlen & _).
  exists record. exact Hlen.
Defined.

(** X8. Taking the record out of the output gives the input back: the input
    is the output's first 8 bytes (or as many as the input had) followed by
    the output after the record. *)
Theorem add_custom_section_strip w name data out :
  add_custom_section w name data = Ok out ->
  exists record,
    custom_section name data = Ok record /\
    firstn (Nat.min 8 (List.length w)) out
    ++ skipn (8 + List.length record) out = w.
Proof.
  intros H. destruct (add_custom_section_ok_inv _ _ _ H)
    as (_ & record & Hrec & ->).
  exists record. split; [assumption |].
  rewrite splice_skipn.
  rewrite firstn_app, length_firstn, Nat.sub_diag, firstn_O, app_nil_r.
  rewrite firstn_firstn.
  replace (Nat.min (Nat.min 8 (List.length w)) 8) with (Nat.min 8 (List.length w))
    by lia.
  destruct (Nat.le_gt_cases 8 (List.length w)) as [Hlen | Hlen].
  - rewrite Nat.min_l by assumption. apply firstn_skipn.
  - rewrite Nat.min_r by lia. rewrite firstn_all.
    rewrite skipn_all2 by lia. apply app_nil_r.
Qed.

Lemma add_custom_section_strip_witness :
  exists record : bytes,
    firstn (Nat.min 8 10)
           [x00; x61; x73; x6d; x01; x00; x00; x00; x00; x03; x01; x68; x42;
            x0a; x0b]
    ++ skipn (8 + List.length record)
             [x00; x61; x73; x6d; x01; x00; x00; x00; x00; x03; x01; x68; x42;
              x0a; x0b]
    = [x00; x61; x73; x6d; x01; x00; x00; x00; x0a; x0b].
Proof.
  destruct (@add_custom_section_strip
              [x00; x61; x73; x6d; x01; x00; x00; x00; x0a; x0b]
              (str_of_string "h") [x42]
              [x00; x61; x73; x6d; x01; x00; x00; x00; x00; x03; x01; x68; x42;
               x0a; x0b] eq_refl)
    as (record & _ & Hstrip).
  exists record. exact Hstrip.
Defined.

Lemma magic_length w : slice 0 4 w = wasm_magic -> (4 <= List.length w)%nat.
Proof.
  intros H. apply (f_equal (@List.length byte)) in H.
  destruct (slice_lengths w) as (H4 & _). rewrite H4 in H.
  cbn [wasm_magic List.length] in H. lia.
Qed.

Lemma splice_magic w (x : bytes) :
  (4 <= List.length w)%nat -> slice 0 4 (firstn 8 w ++ x) = slice 0 4 w.
Proof.
  intros Hlen. unfold slice. cbn [Nat.sub skipn].
  rewrite firstn_app, length_firstn.
  replace (4 - Nat.min 8 (List.length w))%nat with 0%nat by lia.
  rewrite firstn_O, app_nil_r, firstn_firstn. reflexivity.
Qed.

(** X9. Insertions stack. On a container with a full 8-byte header, a
    second call on the output of the first returns the header, the second
    record, the first record and the original body, in that order: the
    latest section comes first and nothing earlier is disturbed. *)
Theorem add_custom_section_twice w name1 data1 name2 data2 :
  slice 0 4 w = wasm_magic -> (8 <= List.length w)%nat ->
  is_text name1 = true -> is_text name2 = true ->
  exists record1 record2 out1,
    custom_section name1 data1 = Ok record1 /\
    custom_section name2 data2 = Ok record2 /\
    add_custom_section w name1 data1 = Ok out1 /\
    add_custom_section out1 name2 data2
    = Ok (firstn 8 w ++ record2 ++ record1 ++ skipn 8 w).
Proof.
  intros Hmagic Hlen Hn1 Hn2.
  destruct (@add_custom_section_text w name1 data1 Hmagic Hn1)
    as (r1 & Hr1 & Hout1).
  rewrite app_assoc, slice_header in Hout1. unfold slice_from in Hout1.
  assert (Hmagic1 : slice 0 4 (firstn 8 w ++ r1 ++ skipn 8 w) = wasm_magic).
  { rewrite splice_magic by lia. assumption. }
  destruct (@add_custom_section_text _ name2 data2 Hmagic1 Hn2)
    as (r2 & Hr2 & Hout2).
  exists r1, r2, (firstn 8 w ++ r1 ++ skipn 8 w).
  repeat (split; [assumption |]).
  rewrite Hout2. f_equal.
  rewrite app_assoc, slice_header. unfold slice_from.
  rewrite firstn_app, length_firstn.
  replace (8 - Nat.min 8 (List.length w))%nat with 0%nat by lia.
  rewrite firstn_O, app_nil_r, firstn_firstn.
  rewrite skipn_app, length_firstn.
  replace (8 - Nat.min 8 (List.length w))%nat with 0%nat by lia.
  rewrite (skipn_all2 (firstn 8 w)) by (rewrite length_firstn; lia).
  reflexivity.
Qed.

Lemma add_custom_section_twice_witness :
  exists out1,
    add_custom_section [x00; x61; x73; x6d; x01; x00; x00; x00; x0a]
                       (str_of_string "a") [x01] = Ok out1 /\
    exists record1 record2,
      add_custom_section out1 (str_of_string "b") [x02]
      = Ok ([x00; x61; x73; x6d; x01; x00; x00; x00] ++ record2 ++ record1
            ++ [x0a]).
Proof.
  destruct (@add_custom_section_twice
              [x00; x61; x73; x6d; x01; x00; x00; x00; x0a]
              (str_of_string "a") [x01] (str_of_string "b") [x02]
              eq_refl ltac:(simpl; lia) eq_refl eq_refl)
    as (r1 & r2 & out1 & _ & _ & H1 & H2).
  exists out1. split; [exact H1 |]. exists r1, r2. exact H2.
Defined.

(** X10. On a container with fewer than 8 bytes the first record directly
    follows the input, so a second call copies the start of that record as
    if it were the rest of the header and inserts the second record inside
    the first. *)
Theorem add_custom_section_twice_short w name1 data1 name2 data2 :
  slice 0 4 w = wasm_magic -> (List.length w < 8)%nat ->
  is_text name1 = true -> is_text name2 = true ->
  exists record1 record2,
    custom_section name1 data1 = Ok record1 /\
    custom_section name2 data2 = Ok record2 /\
    add_custom_section w name1 data1 = Ok (w ++ record1) /\
    add_custom_section (w ++ record1) name2 data2
    = Ok (w ++ firstn (8 - List.length w) record1 ++ record2
          ++ skipn (8 - List.length w) record1).
Proof.
  intros Hmagic Hlen Hn1 Hn2.
  pose proof (magic_length w Hmagic) as H4.
  destruct (@add_custom_section_text w name1 data1 Hmagic Hn1)
    as (r1 & Hr1 & Hout1).
  rewrite app_assoc, slice_header in Hout1. unfold slice_from in Hout1.
  rewrite (skipn_all2 (n := 8) w), app_nil_r, firstn_all2 in Hout1 by lia.
  assert (Hmagic1 : slice 0 4 (w ++ r1) = wasm_magic).
  { rewrite <- Hmagic. unfold slice. cbn [Nat.sub skipn].
    rewrite firstn_app.
    replace (4 - List.length w)%nat with 0%nat by lia.
    rewrite firstn_O, app_nil_r. reflexivity. }
  destruct (@add_custom_section_text _ name2 data2 Hmagic1 Hn2)
    as (r2 & Hr2 & Hout2).
  exists r1, r2. repeat (split; [assumption |]).
  rewrite Hout2. f_equal.
  rewrite app_assoc, slice_header. unfold slice_from.
  rewrite firstn_app, skipn_app.
  rewrite firstn_all2, (skipn_all2 (n := 8) w) by lia.
  rewrite <- app_assoc. reflexivity.
Qed.

Lemma add_custom_section_twice_short_witness :
  add_custom_section ([x00; x61; x73; x6d] ++ [x00; x03; x01; x61; x01])
                     (str_of_string "b") [x02]
  = Ok ([x00; x61; x73; x6d] ++ [x00; x03; x01; x61]
        ++ [x00; x03; x01; x62; x02] ++ [x01]).
Proof.
  destruct (@add_custom_section_twice_short [x00; x61; x73; x6d]
              (str_of_string "a") [x01] (str_of_string "b") [x02]
              eq_refl ltac:(simpl; lia) eq_refl eq_refl)
    as (r1 & r2 & Hr1 & Hr2 & _ & H2).
  vm_compute in Hr1. injection Hr1 as <-.
  vm_compute in Hr2. injection Hr2 as <-.
  exact H2.
Defined.

(** X11. An input of fewer than 4 bytes, the empty input among them, is
    rejected with [ValueError("Invalid WASM file")] whatever the name and
    the payload. *)
Theorem add_custom_section_too_short w name data :
  (List.length w < 4)%nat ->
  add_custom_section w name data = Raise (ValueError "Invalid WASM file").
Proof.
  intros Hlen. rewrite add_custom_section_eq.
  destruct (bytes_eqb (slice 0 4 w) wasm_magic) eqn:E; [| reflexivity].
  apply bytes_eqb_eq in E. apply magic_length in E. lia.
Qed.

Lemma add_custom_section_too_short_witness :
  add_custom_section [] (str_of_string "hello") [x42]
  = Raise (ValueError "Invalid WASM file").
Proof.
  apply add_custom_section_too_short. simpl. lia.
Defined.

(** X12. The Section Builder is injective on text: two names and payloads
    with the same record are the same name and the same payload. *)
Theorem custom_section_injective name1 data1 name2 data2 record :
  is_text name1 = true -> is_text name2 = true ->
  custom_section name1 data1 = Ok record ->
  custom_section name2 data2 = Ok record ->
  name1 = name2 /\ data1 = data2.
Proof.
  intros Hn1 Hn2 H1 H2.
  destruct (custom_section_text name1 data1 Hn1)
    as (nb1 & nl1 & cl1 & _ & Hd1 & Hnl1 & Hcl1 & Hr1).
  destruct (custom_section_text name2 data2 Hn2)
    as (nb2 & nl2 & cl2 & _ & Hd2 & Hnl2 & Hcl2 & Hr2).
  rewrite H1 in Hr1. rewrite H2 in Hr2.
  injection Hr1 as Hr1. injection Hr2 as Hr2.
  assert (Hread : forall nb nl cl data,
            encode_leb128 (len (nl ++ nb ++ data)) = Ok cl ->
            record = [x00] ++ cl ++ nl ++ nb ++ data ->
            read_section (record ++ [])
            = Some (x00, nl ++ nb ++ data, [])).
  { intros nb nl cl data Hcl ->.
    apply (@read_section_record cl (nl ++ nb ++ data) []).
    apply encode_leb128_decode; [apply len_nonneg | assumption]. }
  pose proof (Hread _ _ _ _ Hcl1 Hr1) as R1.
  pose proof (Hread _ _ _ _ Hcl2 Hr2) as R2.
  rewrite R1 in R2. injection R2 as Hcontent.
  assert (C1 : read_custom_content (nl1 ++ nb1 ++ data1)
               = Some (name1, data1)).
  { apply read_custom_content_record; [assumption |].
    apply encode_leb128_decode; [apply len_nonneg | assumption]. }
  assert (C2 : read_custom_content (nl2 ++ nb2 ++ data2)
               = Some (name2, data2)).
  { apply read_custom_content_record; [assumption |].
    apply encode_leb128_decode; [apply len_nonneg | assumption]. }
  rewrite Hcontent, C2 in C1. injection C1 as -> ->.
  split; reflexivity.
Qed.

Lemma custom_section_injective_witness :
  str_of_string "hello" = str_of_string "hello" /\ [x42] = [x42].
Proof.
  apply (@custom_section_injective
           (str_of_string "hello") [x42] (str_of_string "hello") [x42]
           [x00; x07; x05; x68; x65; x6c; x6c; x6f; x42]);
    reflexivity.
Defined.

(** X13. A name of ASCII characters is encoded byte for byte: its UTF-8
    bytes are its code points, one byte each. *)
Theorem utf8_encode_ascii name :
  forallb (fun c => (0 <=? c) && (c <? 0x80)) name = true ->
  exists bs,
    utf8_encode name = Ok bs /\ map int_of_byte bs = name /\
    len bs = len name.
Proof.
  induction name as [| c name IH]; intros H.
  - exists []. repeat split.
  - cbn [forallb] in H. apply andb_true_iff in H. destruct H as [Hc H].
    apply andb_true_iff in Hc. destruct Hc as [Hc0 Hc1].
    apply Z.leb_le in Hc0. apply Z.ltb_lt in Hc1.
    destruct (IH H) as (rest & Hrest & Hmap & Hlen).
    destruct (@byte_of_int_ok c ltac:(lia)) as (b & Hb & Hib).
    exists (b :: rest). cbn [utf8_encode]. unfold utf8_encode_char.
    destruct (Z.ltb_spec c 0x80); [| lia].
    cbn [py_bytes]. rewrite Hb. cbn [bind]. rewrite Hrest. cbn [bind app].
    split; [reflexivity |]. split.
    + cbn [map]. rewrite Hib, Hmap. reflexivity.
    + unfold len in *. cbn [List.length]. lia.
Qed.

Lemma utf8_encode_ascii_witness :
  exists bs, utf8_encode (str_of_string "hello") = Ok bs /\
             map int_of_byte bs = str_of_string "hello".
Proof.
  destruct (@utf8_encode_ascii (str_of_string "hello") eq_refl)
    as (bs & H & Hmap & _).
  exists bs. split; assumption.
Defined.

(** ** The script beyond the claims *)


Lemma is_str_app a b : is_str (a ++ b) = is_str a && is_str b.
Proof. apply forallb_app. Qed.

Lemma existsb_surrogate_app a b :
  existsb is_surrogate (a ++ b)
  = existsb is_surrogate a || existsb is_surrogate b.
Proof. apply existsb_app. Qed.

(** X14. A command line that is not six arguments with [-s] third and [-o]
    fifth makes the script print the usage line and exit: it reads neither
    standard input nor any file and writes none, its only effect is the
    print; with standard output encoded as UTF-8 the usage line and a
    newline are written and the exit status is 1. *)
Theorem main_usage stdin_read write_file stdout_encode argv stdin w :
  ~ argv_ok argv ->
  main stdin_read write_file stdout_encode argv stdin w
  = match print stdout_encode usage w with
    | (Ok _, w1) => (Raise (SystemExit 1), w1)
    | (Raise e, w1) => (Raise e, w1)
    | (Diverge, w1) => (Diverge, w1)
    end /\
  files (snd (main stdin_read write_file stdout_encode argv stdin w))
  = files w /\
  exists usage_bytes,
    map int_of_byte usage_bytes = usage /\
    main stdin_read write_file utf8_encode argv stdin w
    = (Raise (SystemExit 1),
       mkWorld (files w) (stdout w ++ usage_bytes ++ [x0a])).
Proof.
  intros Hbad.
  assert (Hmain : forall se,
            main stdin_read write_file se argv stdin w
            = match print se usage w with
              | (Ok _, w1) => (Raise (SystemExit 1), w1)
              | (Raise e, w1) => (Raise e, w1)
              | (Diverge, w1) => (Diverge, w1)
              end).
  { intros se. unfold main.
    destruct (negb (len argv =? 6)
              || negb (str_eqb (argv_at argv 2) (str_of_string "-s"))
              || negb (str_eqb (argv_at argv 4) (str_of_string "-o")))
      eqn:E; [reflexivity |].
    apply argv_ok_dec in E. contradiction. }
  split; [apply Hmain |]. split.
  - rewrite Hmain.
    pose proof (print_files stdout_encode usage w) as Hf.
    destruct (print stdout_encode usage w) as [[[] | e |] w1]; exact Hf.
  - destruct (@print_text usage w eq_refl) as (ub & Hub & Hprint).
    exists ub. split; [apply py_bytes_inv; rewrite <- Hub |].
    + symmetry. destruct (@utf8_encode_ascii usage eq_refl)
        as (bs & Hbs & Hmap & _).
      rewrite Hbs. rewrite <- Hmap at 1. rewrite py_bytes_of_bytes.
      reflexivity.
    + rewrite Hmain, Hprint. reflexivity.
Qed.

Lemma main_usage_witness :
  fst (main utf8_stdin_read simple_write_file utf8_encode
            [str_of_string "add_custom_section.py"] [x42]
            (mkWorld (fun _ => None) []))
  = Raise (SystemExit 1).
Proof.
  destruct (@main_usage utf8_stdin_read simple_write_file utf8_encode
              [str_of_string "add_custom_section.py"] [x42]
              (mkWorld (fun _ => None) []))
    as (_ & _ & ub & _ & Hmain).
  - intros (Hlen & _). discriminate.
  - rewrite Hmain. reflexivity.
Defined.








(** X18. The confirmation is printed after the file is written: with
    standard output as strict UTF-8, when everything up to the write
    succeeds but the output path holds a surrogate code point, the script
    ends with [UnicodeEncodeError] from [print], in the world the write
    left, so the output has been written although the run failed. *)
Theorem main_print_fails_after_write stdin_read write_file argv stdin w
    manifest wasm_bytes result w1 :
  argv_ok argv ->
  manifest_data stdin_read stdin = Ok manifest ->
  files w (argv_at argv 1) = Some wasm_bytes ->
  add_custom_section wasm_bytes (argv_at argv 3) manifest = Ok result ->
  write_file (argv_at argv 5) result w = (Ok tt, w1) ->
  is_str (argv_at argv 3) = true -> is_str (argv_at argv 5) = true ->
  existsb is_surrogate (argv_at argv 5) = true ->
  main stdin_read write_file utf8_encode argv stdin w
  = (Raise UnicodeEncodeError, w1).
Proof.
  intros Hargv Hman Hfile Hadd Hw Hs3 Hs5 Hsur.
  rewrite (main_run _ _ _ _ _ Hargv), Hman, Hfile, Hadd.
  unfold write_output. rewrite Hw. unfold print, stdout_write.
  rewrite utf8_encode_str_surrogate; [reflexivity | |].
  - rewrite !is_str_app, Hs3, Hs5. reflexivity.
  - rewrite !existsb_surrogate_app, Hsur.
    rewrite !orb_true_r. reflexivity.
Qed.

Lemma main_print_fails_after_write_witness :
  main utf8_stdin_read simple_write_file utf8_encode
       [str_of_string "add_custom_section.py"; str_of_string "in.wasm";
        str_of_string "-s"; str_of_string "n"; str_of_string "-o";
        [0x6F; 0xDCFF]]
       [x42]
       (mkWorld (fun p => if str_eqb p (str_of_string "in.wasm")
                          then Some [x00; x61; x73; x6d; x01; x00; x00; x00]
                          else None) [])
  = (Raise UnicodeEncodeError,
     snd (simple_write_file [0x6F; 0xDCFF]
            [x00; x61; x73; x6d; x01; x00; x00; x00; x00; x03; x01; x6e; x42]
            (mkWorld (fun p => if str_eqb p (str_of_string "in.wasm")
                               then Some [x00; x61; x73; x6d;
                                          x01; x00; x00; x00]
                               else None) []))).
Proof.
  apply (@main_print_fails_after_write utf8_stdin_read simple_write_file
           [str_of_string "add_custom_section.py"; str_of_string "in.wasm";
            str_of_string "-s"; str_of_string "n"; str_of_string "-o";
            [0x6F; 0xDCFF]]
           [x42]
           (mkWorld (fun p => if str_eqb p (str_of_string "in.wasm")
                              then Some [x00; x61; x73; x6d;
                                         x01; x00; x00; x00]
                              else None) [])
           [x42] [x00; x61; x73; x6d; x01; x00; x00; x00]
           [x00; x61; x73; x6d; x01; x00; x00; x00; x00; x03; x01; x6e; x42]);
    try reflexivity.
  repeat split.
Defined.
